(** * EDV: spreadsheet row validation and fuzzy search

    A shallow embedding of [ExcelProcessor] (the row validation engine of
    [excelProcessor.ts]) and of [FuzzySearch.search] ([fuzzySearch.ts]),
    together with the properties the specification states about them.

    Modelling conventions.
    - A JavaScript string is a [string]: a sequence of code units, here
      restricted to the range 0..255 (the Latin-1 block of UTF-16).
    - A raw cell value is a [value]: [undefined], [null], a string, a number
      or a boolean.  Numbers are the safe integers ([Z], at most 2^53 - 1 in
      absolute value): every one of them is a double and [String(n)] is its
      plain decimal numeral.  Fractions, and larger numbers (which [String]
      prints rounded, in exponent form from 1e21 on), have no value here; a
      statement whose truth depends on the printed form of a number carries
      the bound as a hypothesis.
    - A record (a row converted to an object) is a [gmap string value];
      reading a missing property gives [undefined].  The one header this
      does not describe is [__proto__]: in JavaScript the assignment
      [obj["__proto__"] = cell] stores no property and the read gives
      [Object.prototype].  A statement whose truth depends on what is
      stored under that header carries the hypothesis that the header is
      not [__proto__].
    - [forEach] callbacks that push onto a shared [errors] array are written
      in state-passing style: the callback takes the array and returns it.
    - Two platform functions have implementation-defined results and are
      parameters of the development: whether [new Date(s)] is a valid date,
      and [String.prototype.localeCompare].
    - [processFile] is modelled from the point where the sheet decoder has
      delivered the header row and the data rows; reading the file, decoding
      it and rejecting workbooks with several sheets or an empty sheet
      happen before. *)

From stdpp Require Import gmap strings list pretty sorting.
From Stdlib Require Import ZArith Ascii String Sorted Permutation Lia.

Local Open Scope string_scope.
Local Open Scope list_scope.
Local Open Scope Z_scope.

(** ** JavaScript built-ins used by the sources *)

Module JS.

Definition charCode (c : ascii) : Z := Z.of_N (N_of_ascii c).

Definition fromCharCode (n : Z) : ascii := ascii_of_N (Z.to_N n).

(** [WhiteSpace] and [LineTerminator] code points below 256: TAB, LF, VT, FF,
    CR, SP and NBSP.  This is the set [trim] strips and [\s] matches. *)
Definition isWhiteSpace (c : ascii) : bool :=
  let n := charCode c in
  ((9 <=? n) && (n <=? 13)) || (n =? 32) || (n =? 160).

(** [\d] *)
Definition isDigit (c : ascii) : bool :=
  let n := charCode c in (48 <=? n) && (n <=? 57).

Definition isEmpty (s : string) : bool :=
  match s with EmptyString => true | String _ _ => false end.

Fixpoint trimStart (s : string) : string :=
  match s with
  | EmptyString => EmptyString
  | String c r => if isWhiteSpace c then trimStart r else s
  end.

Fixpoint trimEnd (s : string) : string :=
  match s with
  | EmptyString => EmptyString
  | String c r =>
      let r' := trimEnd r in
      if isWhiteSpace c && isEmpty r' then EmptyString else String c r'
  end.

(** [s.trim()] *)
Definition trim (s : string) : string := trimEnd (trimStart s).

Definition lowerChar (c : ascii) : ascii :=
  let n := charCode c in
  if ((65 <=? n) && (n <=? 90))
     || ((192 <=? n) && (n <=? 222) && negb (n =? 215))
  then fromCharCode (n + 32) else c.

(** [s.toLowerCase()] *)
Fixpoint toLowerCase (s : string) : string :=
  match s with
  | EmptyString => EmptyString
  | String c r => String (lowerChar c) (toLowerCase r)
  end.

Fixpoint startsWith (s p : string) : bool :=
  match p, s with
  | EmptyString, _ => true
  | String _ _, EmptyString => false
  | String a p', String b s' => Ascii.eqb a b && startsWith s' p'
  end.

(** [s.includes(sub)] *)
Fixpoint includes (s sub : string) : bool :=
  startsWith s sub
  || match s with
     | EmptyString => false
     | String _ r => includes r sub
     end.

(** Raw cell values, as the sheet decoder hands them over. *)
Inductive value :=
| VUndefined
| VNull
| VString (s : string)
| VNumber (n : Z)
| VBoolean (b : bool).

#[global] Instance value_eq_dec : EqDecision value.
Proof. solve_decision. Defined.

(** [String(v)]; for a number, the decimal numeral, which is what [String]
    prints for a safe integer. *)
Definition toString (v : value) : string :=
  match v with
  | VUndefined => "undefined"
  | VNull => "null"
  | VString s => s
  | VNumber n => pretty n
  | VBoolean true => "true"
  | VBoolean false => "false"
  end.

(** Truthiness ([ToBoolean]). *)
Definition toBoolean (v : value) : bool :=
  match v with
  | VUndefined | VNull => false
  | VString s => negb (isEmpty s)
  | VNumber n => negb (n =? 0)
  | VBoolean b => b
  end.

(** [a || b] *)
Definition orElse (a b : value) : value := if toBoolean a then a else b.

(** *** Regular expressions

    The two patterns of the source are anchored on both sides and use only
    character classes, concatenation and repetition, so [test] is language
    membership; it is decided with derivatives. *)

Inductive regex :=
| RNone
| REps
| RClass (p : ascii -> bool)
| RSeq (r1 r2 : regex)
| RAlt (r1 r2 : regex)
| RStar (r : regex).

Fixpoint nullable (r : regex) : bool :=
  match r with
  | RNone => false
  | REps => true
  | RClass _ => false
  | RSeq r1 r2 => nullable r1 && nullable r2
  | RAlt r1 r2 => nullable r1 || nullable r2
  | RStar _ => true
  end.

Fixpoint deriv (c : ascii) (r : regex) : regex :=
  match r with
  | RNone => RNone
  | REps => RNone
  | RClass p => if p c then REps else RNone
  | RSeq r1 r2 =>
      if nullable r1 then RAlt (RSeq (deriv c r1) r2) (deriv c r2)
      else RSeq (deriv c r1) r2
  | RAlt r1 r2 => RAlt (deriv c r1) (deriv c r2)
  | RStar r1 => RSeq (deriv c r1) (RStar r1)
  end.

(** [/^r$/.test(s)] *)
Fixpoint test (r : regex) (s : string) : bool :=
  match s with
  | EmptyString => nullable r
  | String c s' => test (deriv c r) s'
  end.

(** [r+] *)
Definition RPlus (r : regex) : regex := RSeq r (RStar r).

(** [r{n}] *)
Fixpoint RTimes (n : nat) (r : regex) : regex :=
  match n with
  | O => REps
  | S n' => RSeq r (RTimes n' r)
  end.

Definition RChar (a : ascii) : regex := RClass (Ascii.eqb a).

(** [s.replace(/\D/g, '')]: every non-digit removed. *)
Fixpoint removeNonDigits (s : string) : string :=
  match s with
  | EmptyString => EmptyString
  | String c r =>
      if isDigit c then String c (removeNonDigits r) else removeNonDigits r
  end.

(** *** [Number(s)]

    Only the class of the result matters to the validator: NaN, a finite
    number, or an infinity.  The string is parsed with the
    [StringNumericLiteral] grammar; a literal whose exact value is at least
    [2^1024 - 2^970] rounds to an infinity. *)

Inductive numberClass := IsNaN | IsFinite | IsInfinite.

Definition overflowBound : Z := 2 ^ 1024 - 2 ^ 970.

(** the class of [m * 10^e] for a natural mantissa [m] *)
Definition classify (m e : Z) : numberClass :=
  if 0 <=? e
  then (if overflowBound <=? m * 10 ^ e then IsInfinite else IsFinite)
  else (if overflowBound * 10 ^ (- e) <=? m then IsInfinite else IsFinite).

Definition digitValue (c : ascii) : option Z :=
  let n := charCode c in
  if (48 <=? n) && (n <=? 57) then Some (n - 48)
  else if (97 <=? n) && (n <=? 102) then Some (n - 87)
  else if (65 <=? n) && (n <=? 70) then Some (n - 55)
  else None.

(** value of a non-empty digit string in the given radix *)
Fixpoint radixValue (radix : Z) (acc : Z) (s : string) : option Z :=
  match s with
  | EmptyString => Some acc
  | String c r =>
      match digitValue c with
      | Some d => if d <? radix then radixValue radix (acc * radix + d) r else None
      | None => None
      end
  end.

Definition digitsValue (radix : Z) (s : string) : option Z :=
  if isEmpty s then None else radixValue radix 0 s.

(** longest prefix of decimal digits, and the rest *)
Fixpoint spanDigits (s : string) : string * string :=
  match s with
  | EmptyString => (EmptyString, EmptyString)
  | String c r =>
      if isDigit c
      then let '(d, rest) := spanDigits r in (String c d, rest)
      else (EmptyString, s)
  end.

(** [ExponentPart], optional: [e], [E], then an optional sign and digits *)
Definition exponentPart (s : string) : option Z :=
  match s with
  | EmptyString => Some 0
  | String c r =>
      if Ascii.eqb c "e" || Ascii.eqb c "E" then
        match r with
        | String "+" ds => digitsValue 10 ds
        | String "-" ds => Z.opp <$> digitsValue 10 ds
        | _ => digitsValue 10 r
        end
      else None
  end.

(** [StrUnsignedDecimalLiteral] *)
Definition unsignedDecimal (s : string) : numberClass :=
  if String.eqb s "Infinity" then IsInfinite else
  let '(ip, r1) := spanDigits s in
  let '(fp, r2) :=
    match r1 with
    | String "." r => spanDigits r
    | _ => (EmptyString, r1)
    end in
  if isEmpty ip && isEmpty fp then IsNaN else
  match radixValue 10 0 (ip +:+ fp), exponentPart r2 with
  | Some m, Some e => classify m (e - Z.of_nat (String.length fp))
  | _, _ => IsNaN
  end.

(** [NonDecimalIntegerLiteral]: [0b], [0o] or [0x] and digits of that radix *)
Definition nonDecimal (s : string) : option numberClass :=
  match s with
  | String "0" (String c ds) =>
      let radix :=
        if Ascii.eqb c "x" || Ascii.eqb c "X" then Some 16
        else if Ascii.eqb c "o" || Ascii.eqb c "O" then Some 8
        else if Ascii.eqb c "b" || Ascii.eqb c "B" then Some 2
        else None in
      match radix with
      | Some k =>
          Some match digitsValue k ds with
               | Some m => classify m 0
               | None => IsNaN
               end
      | None => None
      end
  | _ => None
  end.

(** the class of [Number(s)] *)
Definition Number (s : string) : numberClass :=
  let t := trim s in
  if isEmpty t then IsFinite else
  match nonDecimal t with
  | Some k => k
  | None =>
      match t with
      | String "+" r | String "-" r => unsignedDecimal r
      | _ => unsignedDecimal t
      end
  end.

Definition isNaN (k : numberClass) : bool :=
  match k with IsNaN => true | _ => false end.

Definition isFinite (k : numberClass) : bool :=
  match k with IsFinite => true | _ => false end.

End JS.


(** ** [ExcelProcessor] *)

Module ExcelProcessor.
Import JS.

Inductive errorType := phone | email | blank | numeric | date | unique.

#[global] Instance errorType_eq_dec : EqDecision errorType.
Proof. solve_decision. Defined.

Record ValidationError := mkError {
  cellAddress : string;
  row : Z;
  column : string;
  message : string;
  type : errorType
}.

(** A row converted to an object: header name to raw value. *)
Abbreviation record := (gmap string value).

(** [obj[key]] *)
Definition getProp (obj : record) (key : string) : value :=
  default VUndefined (obj !! key).

Record SheetData := mkSheetData {
  headers : list string;
  rows : list (list value);
  originalData : list record
}.

Record ProcessResult := mkResult {
  data : option SheetData;
  errors : list ValidationError
}.

(** [l.forEach((x, i) => ...)] over a state [S] the callback updates. *)
Fixpoint forEachFrom {A S : Type} (i : nat) (f : S -> A -> nat -> S)
    (l : list A) (s : S) : S :=
  match l with
  | [] => s
  | x :: l' => forEachFrom (Datatypes.S i) f l' (f s x i)
  end.

Definition forEach {A S : Type} (f : S -> A -> nat -> S) (l : list A) (s : S) : S :=
  forEachFrom 0 f l s.

(** [errors.push(e)] *)
Definition push (errs : list ValidationError) (e : ValidationError) :=
  errs ++ [e].

(** [[^\s@]] *)
Definition notSpaceAt (c : ascii) : bool :=
  negb (isWhiteSpace c) && negb (Ascii.eqb c "@").

(** [/^[^\s@]+@[^\s@]+\.[^\s@]+$/] *)
Definition emailRegex : regex :=
  RSeq (RPlus (RClass notSpaceAt))
    (RSeq (RChar "@")
       (RSeq (RPlus (RClass notSpaceAt))
          (RSeq (RChar ".") (RPlus (RClass notSpaceAt))))).

Definition validateEmail (email : string) : bool := test emailRegex email.

(** [/^\d{10}$/] *)
Definition phoneRegex : regex := RTimes 10 (RClass isDigit).

Definition validatePhone (phone : string) : bool :=
  test phoneRegex (removeNonDigits phone).

Definition validateNumeric (v : string) : bool :=
  negb (isNaN (Number v)) && isFinite (Number v).

(** The [while (col >= 0)] loop of [getCellAddress]. *)
Fixpoint columnLoop (fuel : nat) (col : Z) (result : string) : string :=
  match fuel with
  | O => result
  | Datatypes.S fuel' =>
      if 0 <=? col
      then columnLoop fuel' (col / 26 - 1)
             (String (fromCharCode (65 + col mod 26)) result)
      else result
  end.

(** Each turn of the loop takes [col] to [col / 26 - 1], which is smaller, so
    [col + 1] turns are enough for the guard to fail (see [columnLoop_fuel]). *)
Definition columnLetters (col : Z) : string :=
  columnLoop (Z.to_nat (col + 1)) col "".

Definition getCellAddress (row col : Z) : string :=
  columnLetters col +:+ pretty (row + 1).

Section Platform.

(** whether [new Date(s).getTime()] is a number *)
Variable dateIsValid : string -> bool.

(** [a.localeCompare(b)] *)
Variable localeCompare : string -> string -> Z.

Definition validateDate (dateStr : string) : bool :=
  if isEmpty dateStr then false else dateIsValid dateStr.

(** The callback of [headers.forEach] in [validateRow]. *)
Definition validateCell (rowData : record) (rowIndex : nat)
    (errs : list ValidationError) (header : string) (colIndex : nat)
    : list ValidationError :=
  let v := getProp rowData header in
  let cellAddress := getCellAddress (Z.of_nat rowIndex + 1) (Z.of_nat colIndex) in
  if match v with VUndefined | VNull | VString "" => true | _ => false end
  then
    push errs (mkError cellAddress (Z.of_nat rowIndex + 2) header
                 "This field cannot be empty" blank)
  else
    let stringValue := trim (toString v) in
    let errs :=
      if includes (toLowerCase header) "email" && negb (validateEmail stringValue)
      then push errs (mkError cellAddress (Z.of_nat rowIndex + 2) header
                        "Invalid email format" email)
      else errs in
    let errs :=
      if (includes (toLowerCase header) "phone"
          || includes (toLowerCase header) "mobile")
         && negb (validatePhone stringValue)
      then push errs (mkError cellAddress (Z.of_nat rowIndex + 2) header
                        "Phone number must be exactly 10 digits" phone)
      else errs in
    let errs :=
      if (includes (toLowerCase header) "age"
          || includes (toLowerCase header) "number"
          || includes (toLowerCase header) "numeric")
         && negb (validateNumeric stringValue)
      then push errs (mkError cellAddress (Z.of_nat rowIndex + 2) header
                        "Must be a valid number" numeric)
      else errs in
    let errs :=
      if includes (toLowerCase header) "date" && negb (validateDate stringValue)
      then push errs (mkError cellAddress (Z.of_nat rowIndex + 2) header
                        "Invalid date format" date)
      else errs in
    errs.

Definition validateRow (rowData : record) (headers : list string)
    (rowIndex : nat) : list ValidationError :=
  forEach (validateCell rowData rowIndex) headers [].

(** The callback of [data.forEach] in [checkUniqueConstraints]; its state is
    the [values] map and the [errors] array. *)
Definition uniqueCell (header : string) (colIndex : nat)
    (st : gmap string nat * list ValidationError) (rowData : record)
    (rowIndex : nat) : gmap string nat * list ValidationError :=
  let '(values, errs) := st in
  let v := trim (toString (orElse (getProp rowData header) (VString ""))) in
  if negb (isEmpty v) then
    match values !! v with
    | Some originalRowIndex =>
        let cellAddress :=
          getCellAddress (Z.of_nat rowIndex + 1) (Z.of_nat colIndex) in
        (values,
         push errs
           (mkError cellAddress (Z.of_nat rowIndex + 2) header
              ("Duplicate value found (also in row "
                 +:+ pretty (Z.of_nat originalRowIndex + 2) +:+ ")")
              unique))
    | None => (<[v := rowIndex]> values, errs)
    end
  else st.

(** The callback of [headers.forEach] in [checkUniqueConstraints]. *)
Definition uniqueColumn (data : list record) (errs : list ValidationError)
    (header : string) (colIndex : nat) : list ValidationError :=
  if includes (toLowerCase header) "id"
     || includes (toLowerCase header) "registration"
     || includes (toLowerCase header) "unique"
  then snd (forEach (uniqueCell header colIndex) data (∅, errs))
  else errs.

Definition checkUniqueConstraints (data : list record) (headers : list string)
    : list ValidationError :=
  forEach (uniqueColumn data) headers [].

(** [dataRows.map(row => { obj[header] = row[index] ... })], for headers
    other than [__proto__] (an ordinary property is written for each). *)
Definition toObject (headers : list string) (row : list value) : record :=
  forEach (fun (obj : record) header index =>
             <[header := nth index row VUndefined]> obj)
    headers ∅.

(** [allErrors] after both passes (lines 197-208 of [processFile]). *)
Definition validate (objectData : list record) (headers : list string)
    : list ValidationError :=
  let allErrors :=
    forEach (fun allErrors row index => allErrors ++ validateRow row headers index)
      objectData [] in
  allErrors ++ checkUniqueConstraints objectData headers.

(** [headers.find(h => ...) || headers[0]]; [None] is [undefined]. *)
Definition nameColumn (headers : list string) : option string :=
  match List.find (fun h => includes (toLowerCase h) "name"
                            || includes (toLowerCase h) "title") headers with
  | Some h => if isEmpty h then head headers else Some h
  | None => head headers
  end.

(** the property key an optional string is converted to *)
Definition propertyKey (k : option string) : string :=
  match k with Some h => h | None => "undefined" end.

(** [String(a[nameColumn] || '').toLowerCase()] *)
Definition sortKey (nameColumn : option string) (a : record) : string :=
  toLowerCase (toString (orElse (getProp a (propertyKey nameColumn)) (VString ""))).

(** The comparator handed to [sort]. *)
Definition compareRows (nameColumn : option string) (a b : record) : Z :=
  localeCompare (sortKey nameColumn a) (sortKey nameColumn b).

(** [Array.prototype.sort] is stable and, for a consistent comparator, its
    result is determined ([Sorting.sort_unique]); it is modelled by a stable
    insertion sort. *)
Fixpoint sortInsert {A : Type} (cmp : A -> A -> Z) (x : A) (l : list A) : list A :=
  match l with
  | [] => [x]
  | y :: l' => if cmp x y <=? 0 then x :: l else y :: sortInsert cmp x l'
  end.

Fixpoint sort {A : Type} (cmp : A -> A -> Z) (l : list A) : list A :=
  match l with
  | [] => []
  | x :: l' => sortInsert cmp x (sort cmp l')
  end.

(** [processFile] from line 184 on: the decoder has produced the header row
    and the data rows of the single sheet. *)
Definition processFile (headers : list string) (dataRows : list (list value))
    : ProcessResult :=
  let objectData := map (toObject headers) dataRows in
  let allErrors := validate objectData headers in
  if (0 <? List.length allErrors)%nat then
    mkResult None allErrors
  else
    let nameColumn := nameColumn headers in
    let sortedData := sort (compareRows nameColumn) objectData in
    mkResult
      (Some (mkSheetData headers
               (map (fun row => map (fun header => getProp row header) headers)
                  sortedData)
               sortedData))
      [].

End Platform.

End ExcelProcessor.


(** ** [FuzzySearch] *)

Module FuzzySearch.
Import JS.

Section Fuse.

(** the row objects the index was built over *)
Context {Item : Type}.

(** One entry of what [fuse.search] returns. *)
Record FuseResult := mkFuseResult {
  item : Item;
  refIndex : nat
}.

(** [this.fuse.search]: the search of the index the constructor built. *)
Variable fuseSearch : string -> list FuseResult.

Definition search (query : string) : list Item :=
  if isEmpty (trim query) then []
  else map item (fuseSearch query).

(** [JSON.stringify(item)], the key of [allResults]. *)
Variable stringify : Item -> string.

(** [allResults.has(key)]; the [Map] is kept as its entries in insertion
    order, which is the order [values()] lists them in. *)
Definition mapHas (allResults : list (string * Item)) (key : string) : bool :=
  existsb (fun entry => String.eqb (fst entry) key) allResults.

(** The callback of [results.forEach] in [searchMultiple]. *)
Definition addResult (allResults : list (string * Item)) (it : Item)
    (index : nat) : list (string * Item) :=
  let key := stringify it in
  if negb (mapHas allResults key) then allResults ++ [(key, it)]
  else allResults.

Definition searchMultiple (queries : list string) : list Item :=
  let allResults :=
    ExcelProcessor.forEach
      (fun allResults query (index : nat) =>
         ExcelProcessor.forEach addResult (search query) allResults)
      queries [] in
  map snd allResults.

End Fuse.

End FuzzySearch.

(** ** The page that shows the rows ([Index.tsx]) *)

Module IndexPage.
Import JS ExcelProcessor.

Section Fuse.

(** [new Fuse(data, {keys: headers, ...}).search]: the search of the index
    the [FuzzySearch] constructor builds over the rows and the headers. *)
Variable fuse :
  list record -> list string -> string -> list (@FuzzySearch.FuseResult record).

(** The [useMemo] body of [filteredData]: a function of the [sheetData] and
    [searchQuery] states. *)
Definition filteredData (sheetData : option SheetData) (searchQuery : string)
    : list record :=
  match sheetData with
  | None => []
  | Some d =>
      if isEmpty (trim searchQuery) then originalData d
      else FuzzySearch.search (fuse (originalData d) (headers d)) searchQuery
  end.

End Fuse.

End IndexPage.

(** ** Auxiliary definitions

    Notions the properties below are stated with: the classifier of the
    specification, what one cell and one identity column contribute, and the
    reading of a cell address. *)

Module Spec.
Import JS ExcelProcessor.

(** The language of a regular expression; [test] decides it
    ([test_matches]). *)
Inductive matches : regex -> string -> Prop :=
| MEps : matches REps ""
| MClass (p : ascii -> bool) (c : ascii) :
    p c = true -> matches (RClass p) (String c "")
| MSeq (r1 r2 : regex) (s1 s2 : string) :
    matches r1 s1 -> matches r2 s2 -> matches (RSeq r1 r2) (s1 +:+ s2)
| MAltL (r1 r2 : regex) (s : string) : matches r1 s -> matches (RAlt r1 r2) s
| MAltR (r1 r2 : regex) (s : string) : matches r2 s -> matches (RAlt r1 r2) s
| MStarNil (r : regex) : matches (RStar r) ""
| MStarApp (r : regex) (s1 s2 : string) :
    matches r s1 -> matches (RStar r) s2 -> matches (RStar r) (s1 +:+ s2).

(** every code unit of the string satisfies [p] *)
Fixpoint allChars (p : ascii -> bool) (s : string) : bool :=
  match s with
  | EmptyString => true
  | String c r => p c && allChars p r
  end.

(** every code unit of the string is white space *)
Fixpoint isWhiteSpaceOnly (s : string) : bool :=
  match s with
  | EmptyString => true
  | String c r => isWhiteSpace c && isWhiteSpaceOnly r
  end.

(** The guard of line 58: the raw value is [undefined], [null] or ['']. *)
Definition isBlank (v : value) : bool :=
  match v with
  | VUndefined | VNull | VString "" => true
  | _ => false
  end.

(** Blank as the specification words it: absent, null, or a string that is
    empty or holds white space only. *)
Definition isBlankSpec (v : value) : bool :=
  match v with
  | VUndefined | VNull => true
  | VString s => isWhiteSpaceOnly s
  | _ => false
  end.

(** Which rule a column name selects (case-insensitive keywords). *)
Definition ruleApplies (k : errorType) (header : string) : bool :=
  let h := toLowerCase header in
  match k with
  | email => includes h "email"
  | phone => includes h "phone" || includes h "mobile"
  | numeric => includes h "age" || includes h "number" || includes h "numeric"
  | date => includes h "date"
  | unique => includes h "id" || includes h "registration" || includes h "unique"
  | blank => true
  end.

Definition ruleMessage (k : errorType) : string :=
  match k with
  | blank => "This field cannot be empty"
  | email => "Invalid email format"
  | phone => "Phone number must be exactly 10 digits"
  | numeric => "Must be a valid number"
  | date => "Invalid date format"
  | unique => "Duplicate value found"
  end.

(** The four per-cell rules, in the order the source checks them. *)
Definition cellRules : list errorType := [email; phone; numeric; date].

Section Platform.

Variable dateIsValid : string -> bool.

(** The validator of a per-cell rule, on the trimmed string. *)
Definition rulePasses (k : errorType) (stringValue : string) : bool :=
  match k with
  | email => validateEmail stringValue
  | phone => validatePhone stringValue
  | numeric => validateNumeric stringValue
  | date => validateDate dateIsValid stringValue
  | blank | unique => true
  end.

Definition cellError (rowIndex colIndex : nat) (header : string)
    (k : errorType) : ValidationError :=
  mkError (getCellAddress (Z.of_nat rowIndex + 1) (Z.of_nat colIndex))
    (Z.of_nat rowIndex + 2) header (ruleMessage k) k.

Definition ruleErrors (rowIndex colIndex : nat) (header stringValue : string)
    (k : errorType) : list ValidationError :=
  if ruleApplies k header && negb (rulePasses k stringValue)
  then [cellError rowIndex colIndex header k] else [].

(** What one cell adds to [errors]. *)
Definition cellErrors (rowData : record) (rowIndex : nat) (header : string)
    (colIndex : nat) : list ValidationError :=
  let v := getProp rowData header in
  if isBlank v then [cellError rowIndex colIndex header blank]
  else List.concat (map (ruleErrors rowIndex colIndex header (trim (toString v)))
                 cellRules).

End Platform.

(** Reading column letters back as a bijective base-26 numeral. *)
Fixpoint lettersValue (acc : Z) (s : string) : Z :=
  match s with
  | EmptyString => acc
  | String c r => lettersValue (acc * 26 + (charCode c - 64)) r
  end.

(** The key a row contributes to [values]:
    [String(row[header] || '').trim()]. *)
Definition uniqueKey (header : string) (rowData : record) : string :=
  trim (toString (orElse (getProp rowData header) (VString ""))).

Definition uniqueError (header : string) (colIndex rowIndex originalRowIndex : nat)
    : ValidationError :=
  mkError (getCellAddress (Z.of_nat rowIndex + 1) (Z.of_nat colIndex))
    (Z.of_nat rowIndex + 2) header
    ("Duplicate value found (also in row "
       +:+ pretty (Z.of_nat originalRowIndex + 2) +:+ ")")
    unique.

(** The inner loop, on the keys alone. *)
Fixpoint duplicatesFrom (header : string) (colIndex : nat)
    (values : gmap string nat) (i : nat) (keys : list string)
    : list ValidationError :=
  match keys with
  | [] => []
  | k :: ks =>
      if isEmpty k then duplicatesFrom header colIndex values (S i) ks
      else match values !! k with
           | Some o =>
               uniqueError header colIndex i o
               :: duplicatesFrom header colIndex values (S i) ks
           | None => duplicatesFrom header colIndex (<[k := i]> values) (S i) ks
           end
  end.

(** Index of the first occurrence of a key. *)
Fixpoint firstIndex (k : string) (l : list string) : option nat :=
  match l with
  | [] => None
  | x :: l' => if decide (x = k) then Some 0%nat else S <$> firstIndex k l'
  end.

(** What row [j] adds for one identity column: an error naming the first
    earlier row with the same non-empty key, if there is one. *)
Definition duplicateAt (header : string) (colIndex : nat) (keys : list string)
    (j : nat) (k : string) : list ValidationError :=
  if isEmpty k then []
  else match firstIndex k (take j keys) with
       | Some o => [uniqueError header colIndex j o]
       | None => []
       end.

(** The errors one column contributes. *)
Definition columnDuplicates (data : list record) (header : string)
    (colIndex : nat) : list ValidationError :=
  if ruleApplies unique header
  then let keys := map (uniqueKey header) data in
       List.concat (imap (duplicateAt header colIndex keys) keys)
  else [].

(** [A]..[Z] *)
Definition isUpper (c : ascii) : bool :=
  let n := charCode c in (65 <=? n) && (n <=? 90).

Fixpoint allUpper (s : string) : bool :=
  match s with
  | EmptyString => true
  | String c r => isUpper c && allUpper r
  end.

(** the string starts with something other than a letter [A]..[Z] *)
Definition notUpperHead (s : string) : Prop :=
  match s with
  | EmptyString => False
  | String c _ => isUpper c = false
  end.

(** the leading letters of a cell address *)
Fixpoint takeUpper (s : string) : string :=
  match s with
  | EmptyString => EmptyString
  | String c r => if isUpper c then String c (takeUpper r) else EmptyString
  end.

(** The 0-indexed column a cell address names. *)
Definition addressColumn (addr : string) : Z :=
  lettersValue 0 (takeUpper addr) - 1.

(** Platform instances for the closed examples: a [Date] that accepts
    nothing but [YYYY-MM-DD], and comparison by code units. *)
Definition isoDateOnly (s : string) : bool :=
  test (RSeq (RTimes 4 (RClass isDigit))
          (RSeq (RChar "-")
             (RSeq (RTimes 2 (RClass isDigit))
                (RSeq (RChar "-") (RTimes 2 (RClass isDigit)))))) s.

Definition codeUnitCompare (a b : string) : Z :=
  match String.compare a b with
  | Eq => 0
  | Lt => -1
  | Gt => 1
  end.

(** The hypotheses of a clean upload, as decidable checks.  A cell is valid
    when it is not blank and passes every rule its column name selects. *)
Definition cellValid (dateIsValid : string -> bool) (rowData : record)
    (header : string) : bool :=
  let v := getProp rowData header in
  negb (isBlank v)
  && forallb (fun k => implb (ruleApplies k header)
                         (rulePasses dateIsValid k (trim (toString v))))
       cellRules.

Definition allCellsValid (dateIsValid : string -> bool)
    (objectData : list record) (headers : list string) : bool :=
  forallb (fun rowData => forallb (cellValid dateIsValid rowData) headers)
    objectData.

(** no two entries of the list are the same non-empty string *)
Fixpoint distinctNonEmpty (keys : list string) : bool :=
  match keys with
  | [] => true
  | k :: ks =>
      (isEmpty k || negb (existsb (String.eqb k) ks)) && distinctNonEmpty ks
  end.

(** No identity column holds the same trimmed, stringified, non-blank value
    in two rows. *)
Definition identityColumnsDistinct (objectData : list record)
    (headers : list string) : bool :=
  forallb (fun header =>
             implb (ruleApplies unique header)
               (distinctNonEmpty
                  (map (fun rowData => trim (toString (getProp rowData header)))
                     objectData)))
    headers.

(** Row-major order of errors: by display row, then by column. *)
Definition rowMajor (e1 e2 : ValidationError) : Prop :=
  row e1 < row e2
  \/ (row e1 = row e2
      /\ addressColumn (cellAddress e1) <= addressColumn (cellAddress e2)).

(** Column-major order, strict: by column, then by display row. *)
Definition columnMajor (e1 e2 : ValidationError) : Prop :=
  addressColumn (cellAddress e1) < addressColumn (cellAddress e2)
  \/ (addressColumn (cellAddress e1) = addressColumn (cellAddress e2)
      /\ row e1 < row e2).

(** a header whose name contains "name" or "title", whatever the case *)
Definition isNameLike (h : string) : bool :=
  includes (toLowerCase h) "name" || includes (toLowerCase h) "title".

(** [col] is the first name-like header, or the first header if there is
    none ([None] when there is no header at all). *)
Definition isSortColumn (headers : list string) (col : option string) : Prop :=
  (exists (i : nat) (h : string),
      headers !! i = Some h /\ isNameLike h = true
      /\ (forall j h', (j < i)%nat -> headers !! j = Some h' ->
            isNameLike h' = false)
      /\ col = Some h)
  \/ ((forall h, h ∈ headers -> isNameLike h = false) /\ col = head headers).

End Spec.

(** ** Auxiliary definitions for the further properties *)

Module SpecMore.
Import JS ExcelProcessor Spec.

(** Index of the last occurrence of a header name. *)
Fixpoint lastIndex (h : string) (l : list string) : option nat :=
  match l with
  | [] => None
  | x :: l' =>
      match lastIndex h l' with
      | Some j => Some (S j)
      | None => if decide (x = h) then Some 0%nat else None
      end
  end.

(** No identity column holds the same non-empty key in two rows, the key
    being the one the uniqueness pass computes. *)
Definition identityKeysDistinct (objectData : list record)
    (headers : list string) : bool :=
  forallb (fun header =>
             implb (ruleApplies unique header)
               (distinctNonEmpty (map (uniqueKey header) objectData)))
    headers.

(** [Number.MAX_SAFE_INTEGER]: up to it in absolute value every integer is
    a double, and [String] prints its decimal numeral. *)
Definition maxSafeInteger : Z := 2 ^ 53 - 1.

(** The list without the items whose key an earlier item has. *)
Fixpoint keepFirst {A : Type} (key : A -> string) (l : list A) : list A :=
  match l with
  | [] => []
  | x :: l' => x :: filter (fun y => key y <> key x) (keepFirst key l')
  end.

End SpecMore.

(** ** Facts about the built-ins *)

Module JSFacts.
Import JS Spec.

Lemma isEmpty_true (s : string) : isEmpty s = true <-> s = "".
Proof. destruct s; simpl; split; congruence. Qed.

Lemma isEmpty_false (s : string) : isEmpty s = false <-> s <> "".
Proof. destruct s; simpl; split; congruence. Qed.

Lemma trimStart_whiteSpaceOnly (s : string) :
  isWhiteSpaceOnly s = true -> trimStart s = "".
Proof.
  induction s as [|c r IH]; simpl; [done|].
  intros [Hc Hr]%andb_true_iff. rewrite Hc. auto.
Qed.

Lemma trimStart_empty_inv (s : string) :
  trimStart s = "" -> isWhiteSpaceOnly s = true.
Proof.
  induction s as [|c r IH]; simpl; [done|].
  destruct (isWhiteSpace c); simpl; [auto|discriminate].
Qed.

Lemma trimEnd_empty_inv (s : string) :
  trimEnd s = "" -> isWhiteSpaceOnly s = true.
Proof.
  induction s as [|c r IH]; simpl; [done|].
  destruct (isWhiteSpace c); simpl; [|discriminate].
  destruct (trimEnd r); simpl; [auto|discriminate].
Qed.

Lemma trimStart_not_head (s : string) c r :
  trimStart s = String c r -> isWhiteSpace c = false.
Proof.
  induction s as [|c' r' IH]; simpl; [discriminate|].
  destruct (isWhiteSpace c') eqn:E; [auto|]. intros [= <- <-]. done.
Qed.

(** [trim] gives the empty string exactly on white-space-only strings. *)
Lemma trim_empty_iff (s : string) :
  trim s = "" <-> isWhiteSpaceOnly s = true.
Proof.
  unfold trim. split.
  - intros H. apply trimEnd_empty_inv in H.
    destruct (trimStart s) as [|c r] eqn:E.
    + by apply trimStart_empty_inv.
    + apply trimStart_not_head in E. simpl in H. rewrite E in H. discriminate.
  - intros H. by rewrite trimStart_whiteSpaceOnly.
Qed.

Lemma append_nil_l (a : string) : "" +:+ a = a.
Proof. reflexivity. Qed.

Lemma append_cons (c : ascii) (a b : string) :
  String c a +:+ b = String c (a +:+ b).
Proof. reflexivity. Qed.

Lemma append_assoc (a b c : string) : (a +:+ b) +:+ c = a +:+ (b +:+ c).
Proof. induction a; rewrite ?append_nil_l, ?append_cons; congruence. Qed.

Lemma append_empty_r (a : string) : a +:+ "" = a.
Proof. induction a; rewrite ?append_nil_l, ?append_cons; congruence. Qed.

Lemma append_length (a b : string) :
  String.length (a +:+ b) = (String.length a + String.length b)%nat.
Proof. induction a; rewrite ?append_nil_l, ?append_cons; simpl; congruence. Qed.

Lemma append_inv_tail (a b c : string) : a +:+ c = b +:+ c -> a = b.
Proof.
  revert b. induction a as [|x a IH]; intros [|y b] H;
    rewrite ?append_nil_l, ?append_cons in H.
  - done.
  - apply (f_equal String.length) in H. simpl in H.
    rewrite append_length in H. lia.
  - apply (f_equal String.length) in H. simpl in H.
    rewrite append_length in H. lia.
  - injection H as -> H. f_equal. auto.
Qed.

(** *** The derivative matcher decides the language *)

Lemma matches_seq_inv (r1 r2 : regex) (s : string) :
  matches (RSeq r1 r2) s ->
  exists s1 s2, s = s1 +:+ s2 /\ matches r1 s1 /\ matches r2 s2.
Proof.
  intros H. remember (RSeq r1 r2) as r eqn:Er.
  destruct H; try discriminate. injection Er as -> ->. eauto.
Qed.

Lemma matches_alt_inv (r1 r2 : regex) (s : string) :
  matches (RAlt r1 r2) s -> matches r1 s \/ matches r2 s.
Proof.
  intros H. remember (RAlt r1 r2) as r eqn:Er.
  destruct H; try discriminate; injection Er as -> ->; auto.
Qed.

Lemma matches_class_inv (p : ascii -> bool) (s : string) :
  matches (RClass p) s -> exists c, s = String c "" /\ p c = true.
Proof.
  intros H. remember (RClass p) as r eqn:Er.
  destruct H; try discriminate. injection Er as ->. eauto.
Qed.

Lemma matches_eps_inv (s : string) : matches REps s -> s = "".
Proof.
  intros H. remember REps as r eqn:Er. by destruct H.
Qed.

Lemma matches_none_inv (s : string) : ~ matches RNone s.
Proof.
  intros H. remember RNone as r eqn:Er. by destruct H.
Qed.

Lemma append_nil_inv (a b : string) : a +:+ b = "" -> a = "" /\ b = "".
Proof. destruct a; [by rewrite append_nil_l|by rewrite append_cons]. Qed.

Lemma nullable_matches (r : regex) : nullable r = true <-> matches r "".
Proof.
  induction r as [| |p|r1 IH1 r2 IH2|r1 IH1 r2 IH2|r IH]; simpl.
  - split; [done|]. by intros ?%matches_none_inv.
  - split; [constructor|done].
  - split; [done|]. by intros (c & ? & _)%matches_class_inv.
  - rewrite andb_true_iff, IH1, IH2. split.
    + intros [H1 H2]. exact (MSeq r1 r2 "" "" H1 H2).
    + intros (s1 & s2 & Hs & H1 & H2)%matches_seq_inv.
      symmetry in Hs. apply append_nil_inv in Hs as [-> ->]. done.
  - rewrite orb_true_iff, IH1, IH2. split.
    + intros [H|H]; [by apply MAltL|by apply MAltR].
    + apply matches_alt_inv.
  - split; [constructor|done].
Qed.

(** A non-empty match of [r*] starts with a non-empty match of [r]. *)
Lemma matches_star_cons (r : regex) (c : ascii) (s : string) :
  matches (RStar r) (String c s) ->
  exists s1 s2, s = s1 +:+ s2 /\ matches r (String c s1) /\ matches (RStar r) s2.
Proof.
  intros H. remember (RStar r) as r' eqn:Er. remember (String c s) as t eqn:Et.
  revert Er Et.
  induction H as [| | | | | |r0 s1 s2 H1 _ H2 IH2]; intros Er Et; try discriminate.
  injection Er as ->. destruct s1 as [|c1 s1].
  - rewrite append_nil_l in Et. by apply IH2.
  - rewrite append_cons in Et. injection Et as Hc Hs. subst. by exists s1, s2.
Qed.

(** A match of [r1 r2] on a non-empty string starts in [r1] or, when [r1]
    matches the empty string, in [r2]. *)
Lemma matches_seq_cons (r1 r2 : regex) (c : ascii) (s : string) :
  matches (RSeq r1 r2) (String c s)
  <-> (exists s1 s2, s = s1 +:+ s2 /\ matches r1 (String c s1) /\ matches r2 s2)
      \/ (matches r1 "" /\ matches r2 (String c s)).
Proof.
  split.
  - intros (s1 & s2 & Hs & H1 & H2)%matches_seq_inv. destruct s1 as [|c1 s1].
    + rewrite append_nil_l in Hs. subst. by right.
    + rewrite append_cons in Hs. injection Hs as Hc Hs. subst.
      left. by exists s1, s2.
  - intros [(s1 & s2 & -> & H1 & H2)|[H1 H2]].
    + rewrite <- append_cons. by constructor.
    + rewrite <- (append_nil_l (String c s)). by constructor.
Qed.

Lemma deriv_matches (r : regex) (c : ascii) (s : string) :
  matches (deriv c r) s <-> matches r (String c s).
Proof.
  revert s. induction r as [| |p|r1 IH1 r2 IH2|r1 IH1 r2 IH2|r IH]; intros s; simpl.
  - split; by intros ?%matches_none_inv.
  - split; [by intros ?%matches_none_inv|by intros ?%matches_eps_inv].
  - destruct (p c) eqn:Ep; split.
    + intros ->%matches_eps_inv. by constructor.
    + intros (c' & [= <- ->] & _)%matches_class_inv. constructor.
    + by intros ?%matches_none_inv.
    + intros (c' & [= <- ->] & ?)%matches_class_inv. congruence.
  - assert (Hseq : matches (RSeq (deriv c r1) r2) s
                   <-> exists s1 s2, s = s1 +:+ s2 /\ matches r1 (String c s1)
                                     /\ matches r2 s2).
    { split.
      - intros (s1 & s2 & -> & H1 & H2)%matches_seq_inv.
        exists s1, s2. by rewrite <- IH1.
      - intros (s1 & s2 & -> & H1 & H2). constructor; [by apply IH1|done]. }
    rewrite matches_seq_cons. destruct (nullable r1) eqn:En.
    + split.
      * intros [H|H]%matches_alt_inv; [left; by apply Hseq|].
        right. split; [by apply nullable_matches|by apply IH2].
      * intros [H|[_ H]]; [apply MAltL; by apply Hseq|apply MAltR; by apply IH2].
    + rewrite Hseq. split; [by left|]. intros [H|[H _]]; [done|].
      apply nullable_matches in H. congruence.
  - split.
    + intros [H|H]%matches_alt_inv; [apply MAltL; by apply IH1|].
      apply MAltR; by apply IH2.
    + intros [H|H]%matches_alt_inv; [apply MAltL; by apply IH1|].
      apply MAltR; by apply IH2.
  - split.
    + intros (s1 & s2 & -> & H1 & H2)%matches_seq_inv.
      rewrite <- append_cons. constructor; [by apply IH|done].
    + intros (s1 & s2 & -> & H1 & H2)%matches_star_cons.
      constructor; [by apply IH|done].
Qed.

Lemma test_matches (r : regex) (s : string) : test r s = true <-> matches r s.
Proof.
  revert r. induction s as [|c s IH]; intros r; simpl.
  - apply nullable_matches.
  - rewrite IH. apply deriv_matches.
Qed.

End JSFacts.

(** ** The cell classifier and the shape of the two passes *)

Module ExcelFacts.
Import JS JSFacts ExcelProcessor Spec.

Lemma isBlank_isBlankSpec (v : value) : isBlank v = true -> isBlankSpec v = true.
Proof. destruct v as [| |[|c s]| |]; simpl; congruence. Qed.

(** *** What the validators accept *)

Lemma matches_star_class (p : ascii -> bool) (s : string) :
  matches (RStar (RClass p)) s <-> allChars p s = true.
Proof.
  induction s as [|c s IH]; simpl.
  - split; [done|constructor].
  - rewrite andb_true_iff, <- IH. split.
    + intros (s1 & s2 & -> & (c' & Heq & Hc)%matches_class_inv & H2)
        %matches_star_cons.
      injection Heq as Hc' Hs1. subst. by rewrite append_nil_l.
    + intros [Hc Hs]. apply (MStarApp _ (String c "") s); [by constructor|done].
Qed.

Lemma matches_plus_class (p : ascii -> bool) (s : string) :
  matches (RPlus (RClass p)) s <-> s <> "" /\ allChars p s = true.
Proof.
  unfold RPlus. split.
  - intros (s1 & s2 & -> & (c & -> & Hc)%matches_class_inv & H2)%matches_seq_inv.
    rewrite append_cons, append_nil_l. simpl. rewrite Hc.
    split; [done|]. by apply matches_star_class.
  - intros [Hne Hs]. destruct s as [|c s]; [done|]. simpl in Hs.
    apply andb_true_iff in Hs as [Hc Hs].
    apply (MSeq _ _ (String c "") s); [by constructor|by apply matches_star_class].
Qed.

Lemma matches_times_class (p : ascii -> bool) (n : nat) (s : string) :
  matches (RTimes n (RClass p)) s
  <-> String.length s = n /\ allChars p s = true.
Proof.
  revert s. induction n as [|n IH]; intros s; simpl.
  - split.
    + by intros ->%matches_eps_inv.
    + intros [Hl _]. destruct s; [constructor|discriminate].
  - split.
    + intros (s1 & s2 & -> & (c & -> & Hc)%matches_class_inv & H2)%matches_seq_inv.
      apply IH in H2 as [<- H2]. rewrite append_cons, append_nil_l. simpl.
      by rewrite Hc.
    + intros [Hl Hs]. destruct s as [|c s]; [discriminate|]. simpl in *.
      apply andb_true_iff in Hs as [Hc Hs].
      apply (MSeq _ _ (String c "") s); [by constructor|].
      apply IH. split; [lia|done].
Qed.

Lemma removeNonDigits_digits (s : string) :
  allChars isDigit (removeNonDigits s) = true.
Proof.
  induction s as [|c s IH]; simpl; [done|].
  destruct (isDigit c) eqn:Ec; simpl; [by rewrite Ec|done].
Qed.

(** A phone number is valid when exactly ten digits remain after every
    other character is dropped. *)
Lemma validatePhone_spec (phone : string) :
  validatePhone phone = true <-> String.length (removeNonDigits phone) = 10%nat.
Proof.
  unfold validatePhone, phoneRegex. rewrite test_matches, matches_times_class.
  split; [by intros [? _]|]. intros H. split; [done|apply removeNonDigits_digits].
Qed.

(** An email is valid when it reads [a@b.c] with [a], [b], [c] non-empty
    and free of white space and of [@]. *)
Lemma validateEmail_spec (s : string) :
  validateEmail s = true
  <-> exists a b c,
        s = a +:+ "@" +:+ b +:+ "." +:+ c
        /\ (a <> "" /\ allChars notSpaceAt a = true)
        /\ (b <> "" /\ allChars notSpaceAt b = true)
        /\ (c <> "" /\ allChars notSpaceAt c = true).
Proof.
  unfold validateEmail, emailRegex, RChar. rewrite test_matches. split.
  - intros (a & t1 & -> & Ha & (x & t2 & -> & (c1 & -> & H1)%matches_class_inv
      & (b & t3 & -> & Hb & (y & c & -> & (c2 & -> & H2)%matches_class_inv & Hc)
         %matches_seq_inv)%matches_seq_inv)%matches_seq_inv)%matches_seq_inv.
    apply Ascii.eqb_eq in H1 as <-, H2 as <-.
    exists a, b, c. split; [done|]. by rewrite <- !matches_plus_class.
  - intros (a & b & c & -> & Ha & Hb & Hc).
    rewrite <- !matches_plus_class in *.
    repeat (constructor; try done); by apply Ascii.eqb_eq.
Qed.

Section Platform.

Variable dateIsValid : string -> bool.

Lemma validateCell_cellErrors rowData rowIndex errs header colIndex :
  validateCell dateIsValid rowData rowIndex errs header colIndex
  = errs ++ cellErrors dateIsValid rowData rowIndex header colIndex.
Proof.
  unfold validateCell, cellErrors, isBlank, push.
  destruct (getProp rowData header) as [| |[|c s]|n|b] eqn:Ev; try reflexivity;
    unfold cellRules, ruleErrors, ruleApplies, rulePasses, cellError; simpl;
    repeat match goal with
           | |- context [if ?b && negb ?v then _ else _] =>
               destruct (b && negb v)
           end; simpl; rewrite <- ?app_assoc, ?app_nil_r; reflexivity.
Qed.

End Platform.

(** A [forEach] whose callback only appends is a concatenation. *)
Lemma forEachFrom_append {A E : Type} (f : list E -> A -> nat -> list E)
    (g : A -> nat -> list E) :
  (forall s x i, f s x i = s ++ g x i) ->
  forall l i s,
    forEachFrom i f l s = s ++ List.concat (imap (fun k x => g x (i + k)%nat) l).
Proof.
  intros Hf l. induction l as [|x l IH]; intros i s; simpl.
  - by rewrite app_nil_r.
  - rewrite IH, Hf, <- app_assoc, Nat.add_0_r. do 2 f_equal.
    f_equal. apply imap_ext. intros k y _. simpl. f_equal. lia.
Qed.

Lemma forEach_append {A E : Type} (f : list E -> A -> nat -> list E)
    (g : A -> nat -> list E) :
  (forall s x i, f s x i = s ++ g x i) ->
  forall l, forEach f l [] = List.concat (imap (fun k x => g x k) l).
Proof.
  intros Hf l. unfold forEach. by rewrite (forEachFrom_append f g Hf).
Qed.

Lemma elem_of_concat_imap {A E : Type} (g : nat -> A -> list E) (l : list A) e :
  e ∈ List.concat (imap g l) <-> exists k x, l !! k = Some x /\ e ∈ g k x.
Proof.
  revert g. induction l as [|y l IH]; intros g; simpl.
  - split; [by intros ?%elem_of_nil|]. by intros (k & x & Hk & _).
  - rewrite elem_of_app, IH. split.
    + intros [He|(k & x & Hk & He)]; [by exists 0%nat, y|by exists (S k), x].
    + intros ([|k] & x & Hk & He); simpl in Hk; [left; by simplify_eq|].
      right. by exists k, x.
Qed.

Lemma validateRow_eq dateIsValid rowData headers rowIndex :
  validateRow dateIsValid rowData headers rowIndex
  = List.concat (imap (fun c h => cellErrors dateIsValid rowData rowIndex h c) headers).
Proof.
  unfold validateRow.
  apply (forEach_append _ (fun h c => cellErrors dateIsValid rowData rowIndex h c)).
  intros. apply validateCell_cellErrors.
Qed.

End ExcelFacts.

(** ** Cell addresses *)

Module Address.
Import JS JSFacts ExcelProcessor Spec.

Lemma charCode_fromCharCode (n : Z) :
  0 <= n < 256 -> charCode (fromCharCode n) = n.
Proof.
  intros Hn. unfold charCode, fromCharCode.
  rewrite N_ascii_embedding by lia. lia.
Qed.

Lemma columnLoop_acc (fuel : nat) (col : Z) (result : string) :
  columnLoop fuel col result = columnLoop fuel col "" +:+ result.
Proof.
  revert col result. induction fuel as [|fuel IH]; intros col result; simpl.
  - reflexivity.
  - destruct (0 <=? col); [|reflexivity].
    rewrite IH, (IH _ (String _ "")), append_assoc. reflexivity.
Qed.

(** Any fuel of at least [col + 1] lets the loop run to its exit. *)
Lemma columnLoop_fuel_irrel (fuel1 fuel2 : nat) (col : Z) (result : string) :
  (Z.to_nat (col + 1) <= fuel1)%nat -> (Z.to_nat (col + 1) <= fuel2)%nat ->
  columnLoop fuel1 col result = columnLoop fuel2 col result.
Proof.
  revert fuel2 col result.
  induction fuel1 as [|fuel1 IH]; intros fuel2 col result H1 H2.
  - destruct fuel2 as [|fuel2]; simpl; [reflexivity|].
    destruct (Z.leb_spec 0 col); [lia|reflexivity].
  - simpl. destruct (Z.leb_spec 0 col) as [Hc|Hc].
    + destruct fuel2 as [|fuel2]; [lia|]. simpl.
      destruct (Z.leb_spec 0 col); [|lia].
      apply IH; Z.to_euclidean_division_equations; lia.
    + destruct fuel2 as [|fuel2]; simpl; [reflexivity|].
      destruct (Z.leb_spec 0 col); [lia|reflexivity].
Qed.

Lemma columnLoop_fuel (fuel : nat) (col : Z) (result : string) :
  (Z.to_nat (col + 1) <= fuel)%nat ->
  columnLoop fuel col result = columnLetters col +:+ result.
Proof.
  intros H. unfold columnLetters.
  rewrite (columnLoop_fuel_irrel fuel (Z.to_nat (col + 1))) by lia.
  apply columnLoop_acc.
Qed.

(** The two equations of the [while] loop. *)
Lemma columnLetters_exit (col : Z) : col < 0 -> columnLetters col = "".
Proof.
  intros H. unfold columnLetters.
  destruct (Z.to_nat (col + 1)); simpl; [reflexivity|].
  destruct (Z.leb_spec 0 col); [lia|reflexivity].
Qed.

Lemma columnLetters_step (col : Z) :
  0 <= col ->
  columnLetters col
  = columnLetters (col / 26 - 1) +:+ String (fromCharCode (65 + col mod 26)) "".
Proof.
  intros H. unfold columnLetters at 1.
  destruct (Z.to_nat (col + 1)) as [|fuel] eqn:E; [lia|]. simpl.
  destruct (Z.leb_spec 0 col); [|lia].
  apply columnLoop_fuel. Z.to_euclidean_division_equations; lia.
Qed.

Lemma lettersValue_app (acc : Z) (a b : string) :
  lettersValue acc (a +:+ b) = lettersValue (lettersValue acc a) b.
Proof.
  revert acc. induction a as [|c a IH]; intros acc;
    rewrite ?append_nil_l, ?append_cons; simpl; auto.
Qed.

Lemma lettersValue_columnLetters (col : Z) :
  -1 <= col -> lettersValue 0 (columnLetters col) = col + 1.
Proof.
  intros Hc.
  assert (Hn : exists n : nat, (Z.to_nat (col + 1) <= n)%nat) by eauto.
  destruct Hn as [n Hn]. revert col Hc Hn.
  induction n as [|n IH]; intros col Hc Hn.
  - assert (col = -1) as -> by lia. reflexivity.
  - destruct (Z.eq_dec col (-1)) as [->|Hne]; [reflexivity|].
    rewrite columnLetters_step, lettersValue_app by lia. simpl.
    rewrite IH, charCode_fromCharCode;
      Z.to_euclidean_division_equations; lia.
Qed.

Lemma columnLetters_inj (c1 c2 : Z) :
  0 <= c1 -> 0 <= c2 -> columnLetters c1 = columnLetters c2 -> c1 = c2.
Proof.
  intros H1 H2 H. apply (f_equal (lettersValue 0)) in H.
  rewrite !lettersValue_columnLetters in H by lia. lia.
Qed.

(** Within one row, the address determines the column. *)
Lemma getCellAddress_inj_col (r : Z) (c1 c2 : nat) :
  getCellAddress r (Z.of_nat c1) = getCellAddress r (Z.of_nat c2) -> c1 = c2.
Proof.
  unfold getCellAddress. intros H%append_inv_tail.
  apply columnLetters_inj in H; lia.
Qed.

Lemma takeUpper_app (a t : string) :
  allUpper a = true -> notUpperHead t -> takeUpper (a +:+ t) = a.
Proof.
  intros Ha Ht. induction a as [|c a IH]; rewrite ?append_nil_l, ?append_cons.
  - destruct t as [|c t]; simpl in *; [done|]. by rewrite Ht.
  - simpl in *. apply andb_true_iff in Ha as [Hc Ha]. rewrite Hc, IH; done.
Qed.

Lemma allUpper_app (a b : string) :
  allUpper (a +:+ b) = allUpper a && allUpper b.
Proof.
  induction a as [|c a IH]; rewrite ?append_nil_l, ?append_cons; simpl; [done|].
  by rewrite IH, andb_assoc.
Qed.

Lemma allUpper_columnLetters (col : Z) : allUpper (columnLetters col) = true.
Proof.
  assert (Hn : exists n : nat, (Z.to_nat (col + 1) <= n)%nat) by eauto.
  destruct Hn as [n Hn]. revert col Hn.
  induction n as [|n IH]; intros col Hn.
  - rewrite columnLetters_exit by lia. reflexivity.
  - destruct (Z.lt_ge_cases col 0) as [Hc|Hc].
    + rewrite columnLetters_exit by lia. reflexivity.
    + rewrite columnLetters_step, allUpper_app by lia.
      rewrite IH by (Z.to_euclidean_division_equations; lia). simpl.
      unfold isUpper. rewrite charCode_fromCharCode;
        [|Z.to_euclidean_division_equations; lia].
      rewrite andb_true_r. apply andb_true_iff.
      split; apply Z.leb_le; Z.to_euclidean_division_equations; lia.
Qed.

Lemma pretty_N_char_not_upper (x : N) : isUpper (pretty_N_char x) = false.
Proof. unfold pretty_N_char. by repeat case_match. Qed.

Lemma pretty_N_go_head (x : N) (s : string) :
  notUpperHead s -> notUpperHead (pretty_N_go x s).
Proof.
  revert s. induction (N.lt_wf_0 x) as [x _ IH]; intros s Hs.
  destruct (decide (x = 0%N)) as [->|Hx]; [by rewrite pretty_N_go_0|].
  rewrite pretty_N_go_step by lia. apply IH.
  - apply N.div_lt; lia.
  - simpl. apply pretty_N_char_not_upper.
Qed.

Lemma pretty_N_head (x : N) : notUpperHead (pretty x).
Proof.
  unfold pretty, pretty_N. case_decide; [done|].
  rewrite pretty_N_go_step by lia. apply pretty_N_go_head. simpl.
  apply pretty_N_char_not_upper.
Qed.

Lemma pretty_Z_head (z : Z) : notUpperHead (pretty z).
Proof.
  destruct z as [|p|p]; [done| |done]. apply (pretty_N_head (Npos p)).
Qed.

(** The address names its column. *)
Lemma addressColumn_getCellAddress (r c : Z) :
  0 <= c -> addressColumn (getCellAddress r c) = c.
Proof.
  intros Hc. unfold addressColumn, getCellAddress.
  rewrite takeUpper_app, lettersValue_columnLetters;
    [lia|lia|apply allUpper_columnLetters|apply pretty_Z_head].
Qed.

(** The address determines the cell. *)
Lemma getCellAddress_inj (r1 r2 : Z) (c1 c2 : nat) :
  getCellAddress r1 (Z.of_nat c1) = getCellAddress r2 (Z.of_nat c2) ->
  r1 = r2 /\ c1 = c2.
Proof.
  intros H.
  assert (Hc : c1 = c2).
  { apply (f_equal addressColumn) in H.
    rewrite !addressColumn_getCellAddress in H by lia. lia. }
  subst c2. split; [|done]. unfold getCellAddress in H.
  apply (inj (String.append _)) in H. apply (inj pretty) in H. lia.
Qed.

End Address.

(** ** The uniqueness pass *)

Module Uniqueness.
Import JS JSFacts ExcelProcessor Spec ExcelFacts.

Lemma uniqueCell_loop header colIndex data i values errs :
  snd (forEachFrom i (uniqueCell header colIndex) data (values, errs))
  = errs ++ duplicatesFrom header colIndex values i (map (uniqueKey header) data).
Proof.
  revert i values errs.
  induction data as [|rowData data IH]; intros i values errs; simpl.
  - by rewrite app_nil_r.
  - fold (uniqueKey header rowData).
    destruct (isEmpty (uniqueKey header rowData)); simpl; [apply IH|].
    destruct (values !! uniqueKey header rowData) as [o|]; [|apply IH].
    rewrite IH. unfold push, uniqueError. by rewrite <- app_assoc.
Qed.

Lemma firstIndex_app (k : string) (l1 l2 : list string) :
  firstIndex k (l1 ++ l2)
  = match firstIndex k l1 with
    | Some o => Some o
    | None => (fun o => (List.length l1 + o)%nat) <$> firstIndex k l2
    end.
Proof.
  induction l1 as [|x l1 IH]; simpl.
  - by destruct (firstIndex k l2).
  - destruct (decide (x = k)); [done|]. rewrite IH.
    destruct (firstIndex k l1); [done|]. by destruct (firstIndex k l2).
Qed.

Lemma firstIndex_Some (k : string) (l : list string) (o : nat) :
  firstIndex k l = Some o
  <-> l !! o = Some k /\ forall o', (o' < o)%nat -> l !! o' <> Some k.
Proof.
  revert o. induction l as [|x l IH]; intros o; simpl.
  - split; [done|]. by intros [? _].
  - destruct (decide (x = k)) as [->|Hne].
    + split.
      * intros [= <-]. split; [done|]. intros; lia.
      * intros [Ho Hmin]. destruct o as [|o]; [done|].
        specialize (Hmin 0%nat). simpl in Hmin. exfalso. apply Hmin; [lia|done].
    + destruct o as [|o].
      * split.
        -- destruct (firstIndex k l); discriminate.
        -- intros [[= ?] _]. done.
      * split.
        -- destruct (firstIndex k l) as [o1|] eqn:E; [|discriminate].
           intros [= <-]. destruct (proj1 (IH o1) eq_refl) as [E1 E2].
           split; [done|]. intros [|o'] Ho'; simpl; [congruence|].
           apply E2. lia.
        -- intros [Ho Hmin]. simpl in Ho.
           assert (firstIndex k l = Some o) as ->; [|done].
           apply IH. split; [done|]. intros o' Ho'. apply (Hmin (S o')). lia.
Qed.

Lemma firstIndex_None (k : string) (l : list string) :
  firstIndex k l = None <-> k ∉ l.
Proof.
  induction l as [|x l IH]; simpl.
  - split; [intros _; apply not_elem_of_nil|done].
  - rewrite not_elem_of_cons. destruct (decide (x = k)) as [->|Hne].
    + split; [done|]. intros [? _]. done.
    + destruct (firstIndex k l); simpl.
      * split; [done|]. intros [_ H]. by apply IH in H.
      * split; [|done]. intros _. split; [congruence|by apply IH].
Qed.

Lemma duplicatesFrom_spec header colIndex (pre ks : list string)
    (values : gmap string nat) :
  (forall k, values !! k = if isEmpty k then None else firstIndex k pre) ->
  duplicatesFrom header colIndex values (List.length pre) ks
  = List.concat
      (imap (fun j k =>
               duplicateAt header colIndex (pre ++ ks) (List.length pre + j) k) ks).
Proof.
  revert pre values. induction ks as [|k ks IH]; intros pre values Hinv; simpl.
  - reflexivity.
  - assert (Htake : take (List.length pre + 0) (pre ++ k :: ks) = pre).
    { rewrite Nat.add_0_r. by rewrite take_app_length. }
    assert (Hrest : forall vals,
      (forall k', vals !! k' = if isEmpty k' then None
                               else firstIndex k' (pre ++ [k])) ->
      duplicatesFrom header colIndex vals (S (List.length pre)) ks
      = List.concat
          (imap ((fun j k0 => duplicateAt header colIndex (pre ++ k :: ks)
                                (List.length pre + j) k0) ∘ S) ks)).
    { intros vals Hvals. specialize (IH (pre ++ [k]) vals Hvals).
      rewrite length_app in IH. simpl in IH.
      rewrite Nat.add_1_r in IH. rewrite IH. f_equal. apply imap_ext.
      intros j k0 _. simpl. rewrite <- app_assoc. simpl. f_equal. lia. }
    unfold duplicateAt at 1. rewrite Htake, Nat.add_0_r.
    destruct (isEmpty k) eqn:Ek; simpl.
    + apply Hrest. intros k'. rewrite Hinv.
      destruct (isEmpty k') eqn:Ek'; [done|]. rewrite firstIndex_app. simpl.
      destruct (firstIndex k' pre); [done|].
      destruct (decide (k = k')) as [->|]; [congruence|done].
    + specialize (Hinv k) as Hk. rewrite Ek in Hk. rewrite Hk.
      destruct (firstIndex k pre) as [o|] eqn:Eo; simpl.
      * f_equal. apply Hrest. intros k'. rewrite Hinv.
        destruct (isEmpty k') eqn:Ek'; [done|]. rewrite firstIndex_app. simpl.
        destruct (firstIndex k' pre) eqn:E'; [done|].
        destruct (decide (k = k')) as [->|]; [congruence|done].
      * apply Hrest. intros k'.
        destruct (decide (k = k')) as [<-|Hne].
        -- rewrite lookup_insert_eq, Ek, firstIndex_app, Eo. simpl.
           rewrite decide_True by done. simpl. f_equal. lia.
        -- rewrite lookup_insert_ne by done. rewrite Hinv.
           destruct (isEmpty k') eqn:Ek'; [done|]. rewrite firstIndex_app. simpl.
           destruct (firstIndex k' pre); [done|]. by rewrite decide_False.
Qed.

Lemma uniqueColumn_eq data errs header colIndex :
  uniqueColumn data errs header colIndex
  = errs ++ columnDuplicates data header colIndex.
Proof.
  unfold uniqueColumn, columnDuplicates, ruleApplies, forEach.
  destruct (_ || _ || _); [|by rewrite app_nil_r].
  rewrite uniqueCell_loop. f_equal.
  apply (duplicatesFrom_spec header colIndex [] _ ∅).
  intros k. rewrite lookup_empty. by destruct (isEmpty k).
Qed.

Lemma checkUniqueConstraints_eq data headers :
  checkUniqueConstraints data headers
  = List.concat (imap (fun c h => columnDuplicates data h c) headers).
Proof.
  unfold checkUniqueConstraints.
  apply (forEach_append _ (fun h c => columnDuplicates data h c)).
  intros. apply uniqueColumn_eq.
Qed.

End Uniqueness.

(** ** The stable sort *)

Module Sorting.
Import ExcelProcessor.

Section Sort.

Context {A : Type} (cmp : A -> A -> Z).

Lemma sortInsert_Permutation (x : A) (l : list A) :
  Permutation (sortInsert cmp x l) (x :: l).
Proof.
  induction l as [|y l IH]; simpl; [done|].
  destruct (cmp x y <=? 0); [done|].
  rewrite IH. apply perm_swap.
Qed.

Lemma sort_Permutation (l : list A) : Permutation (sort cmp l) l.
Proof.
  induction l as [|x l IH]; simpl; [done|].
  by rewrite sortInsert_Permutation, IH.
Qed.

(** A class of elements that the comparator never orders strictly keeps its
    input order: insertion puts [x] before the first element it is not
    strictly greater than. *)
Lemma sortInsert_filter (P : A -> Prop) `{!forall x, Decision (P x)}
    (x : A) (l : list A) :
  (forall a b, P a -> P b -> cmp a b <= 0) ->
  filter P (sortInsert cmp x l) = filter P (x :: l).
Proof.
  intros HP. induction l as [|y l IH]; simpl; [done|].
  destruct (Z.leb_spec (cmp x y) 0) as [Hle|Hgt]; [done|].
  rewrite !filter_cons in *.
  destruct (decide (P y)) as [Hy|Hy]; destruct (decide (P x)) as [Hx|Hx];
    rewrite IH; try done.
  specialize (HP x y Hx Hy). lia.
Qed.

Lemma sort_filter (P : A -> Prop) `{!forall x, Decision (P x)} (l : list A) :
  (forall a b, P a -> P b -> cmp a b <= 0) ->
  filter P (sort cmp l) = filter P l.
Proof.
  intros HP. induction l as [|x l IH]; simpl; [done|].
  rewrite sortInsert_filter by done. rewrite !filter_cons, IH. done.
Qed.

Hypothesis cmp_total : forall a b, cmp a b <= 0 \/ cmp b a <= 0.
Hypothesis cmp_trans : forall a b c, cmp a b <= 0 -> cmp b c <= 0 -> cmp a c <= 0.

Lemma sortInsert_sorted (x : A) (l : list A) :
  StronglySorted (fun a b => cmp a b <= 0) l ->
  StronglySorted (fun a b => cmp a b <= 0) (sortInsert cmp x l).
Proof.
  induction 1 as [|y l Hl IH Hy]; simpl.
  - repeat constructor.
  - destruct (Z.leb_spec (cmp x y) 0) as [Hle|Hgt].
    + constructor; [by constructor|]. constructor; [done|].
      eapply Forall_impl; [exact Hy|]. intros z Hz. simpl in Hz. eauto.
    + constructor; [done|].
      rewrite (Forall_forall (A:=A)). intros z Hz.
      rewrite sortInsert_Permutation in Hz.
      apply elem_of_cons in Hz as [->|Hz].
      * destruct (cmp_total x y); [lia|done].
      * rewrite (Forall_forall (A:=A)) in Hy. by apply Hy.
Qed.

Lemma sort_sorted (l : list A) :
  StronglySorted (fun a b => cmp a b <= 0) (sort cmp l).
Proof.
  induction l as [|x l IH]; simpl; [constructor|].
  by apply sortInsert_sorted.
Qed.

(** A sorted list is determined by the order inside its classes of tied
    elements: a sorted, stable rearrangement is unique.  Whatever algorithm
    the engine's [sort] runs, its result is the one of [sort] here. *)
Lemma sorted_stable_unique (l1 l2 : list A) :
  StronglySorted (fun a b => cmp a b <= 0) l1 ->
  StronglySorted (fun a b => cmp a b <= 0) l2 ->
  (forall x, filter (fun a => cmp a x <= 0 /\ cmp x a <= 0) l1
             = filter (fun a => cmp a x <= 0 /\ cmp x a <= 0) l2) ->
  l1 = l2.
Proof.
  assert (Hrefl : forall x, cmp x x <= 0) by (intros x; by destruct (cmp_total x x)).
  revert l2. induction l1 as [|a l1 IH]; intros l2 H1 H2 Hf.
  - destruct l2 as [|b l2]; [done|]. specialize (Hf b).
    rewrite filter_nil, filter_cons, decide_True in Hf by auto. done.
  - destruct l2 as [|b l2].
    { specialize (Hf a). rewrite filter_nil, filter_cons, decide_True in Hf by auto.
      done. }
    apply StronglySorted_inv in H1 as [H1 Ha], H2 as [H2 Hb].
    rewrite list.Forall_forall in Ha, Hb.
    assert (Hab : cmp a b <= 0).
    { assert (Hin : b ∈ filter (fun x => cmp x b <= 0 /\ cmp b x <= 0) (a :: l1)).
      { rewrite Hf, filter_cons, decide_True by auto. left. }
      apply list_elem_of_filter in Hin as [_ [->|Hin]%elem_of_cons]; auto. }
    assert (Hba : cmp b a <= 0).
    { assert (Hin : a ∈ filter (fun x => cmp x a <= 0 /\ cmp a x <= 0) (b :: l2)).
      { rewrite <- Hf, filter_cons, decide_True by auto. left. }
      apply list_elem_of_filter in Hin as [_ [->|Hin]%elem_of_cons]; auto. }
    assert (a = b) as <-.
    { specialize (Hf a). rewrite !filter_cons, !decide_True in Hf by auto.
      congruence. }
    f_equal. apply IH; [done..|]. intros x. specialize (Hf x).
    rewrite !filter_cons in Hf. case_decide; congruence.
Qed.

Lemma sort_unique (l l' : list A) :
  StronglySorted (fun a b => cmp a b <= 0) l' ->
  (forall x, filter (fun a => cmp a x <= 0 /\ cmp x a <= 0) l'
             = filter (fun a => cmp a x <= 0 /\ cmp x a <= 0) l) ->
  l' = sort cmp l.
Proof.
  intros Hs Hf. apply sorted_stable_unique; [done|apply sort_sorted|].
  intros x. rewrite Hf. symmetry. apply sort_filter.
  intros a b [Ha _] [_ Hb]. eauto.
Qed.

End Sort.

End Sorting.

(** ** The two passes, cell by cell *)

Module Passes.
Import JS JSFacts ExcelProcessor Spec ExcelFacts Address Uniqueness Sorting.

Lemma filter_all {E : Type} (P : E -> Prop) `{!forall x, Decision (P x)}
    (l : list E) :
  (forall e, e ∈ l -> P e) -> filter P l = l.
Proof.
  induction l as [|x l IH]; intros Hl; [done|].
  rewrite filter_cons, decide_True by (apply Hl; left).
  f_equal. apply IH. intros e He. apply Hl. by right.
Qed.

Lemma filter_none {E : Type} (P : E -> Prop) `{!forall x, Decision (P x)}
    (l : list E) :
  (forall e, e ∈ l -> ~ P e) -> filter P l = [].
Proof.
  induction l as [|x l IH]; intros Hl; [done|].
  rewrite filter_cons, decide_False by (apply Hl; left).
  apply IH. intros e He. apply Hl. by right.
Qed.

(** Filtering a concatenation by a property that only one index can meet. *)
Lemma filter_concat_imap_at {E A : Type} (P : E -> Prop)
    `{!forall x, Decision (P x)} (g : nat -> A -> list E) (l : list A)
    (c : nat) (h : A) :
  l !! c = Some h ->
  (forall c' h' e, l !! c' = Some h' -> c' <> c -> e ∈ g c' h' -> ~ P e) ->
  filter P (List.concat (imap g l)) = filter P (g c h).
Proof.
  revert g c. induction l as [|y l IH]; intros g c Hc Hout; [done|].
  simpl. rewrite filter_app. destruct c as [|c]; simpl in Hc.
  - injection Hc as ->.
    rewrite (filter_none _ (List.concat _)); [by rewrite app_nil_r|].
    intros e (c' & h' & Hc' & He)%elem_of_concat_imap.
    by apply (Hout (S c') h').
  - rewrite (filter_none _ (g 0%nat y)).
    + simpl. apply (IH (g ∘ S) c); [done|].
      intros c' h' e Hc' Hne. apply (Hout (S c') h'); [done|lia].
    + intros e He. by apply (Hout 0%nat y).
Qed.

Lemma filter_concat_imap_single {E A : Type} (P : E -> Prop)
    `{!forall x, Decision (P x)} (g : nat -> A -> list E) (l : list A)
    (c : nat) (h : A) :
  l !! c = Some h ->
  (forall e, e ∈ g c h -> P e) ->
  (forall c' h' e, l !! c' = Some h' -> c' <> c -> e ∈ g c' h' -> ~ P e) ->
  filter P (List.concat (imap g l)) = g c h.
Proof.
  intros Hc Hin Hout. rewrite (filter_concat_imap_at P g l c h) by done.
  by apply filter_all.
Qed.

Lemma concat_imap_nil {A E : Type} (g : nat -> A -> list E) (l : list A) :
  (forall i x, l !! i = Some x -> g i x = []) -> List.concat (imap g l) = [].
Proof.
  revert g. induction l as [|y l IH]; intros g Hg; simpl; [done|].
  rewrite (Hg 0%nat y) by done. simpl. apply IH.
  intros i x Hi. by apply (Hg (S i)).
Qed.

Lemma forallb_lookup {A : Type} (f : A -> bool) (l : list A) (i : nat) (x : A) :
  forallb f l = true -> l !! i = Some x -> f x = true.
Proof.
  revert i. induction l as [|y l IH]; intros i H Hi; [done|].
  simpl in H. apply andb_true_iff in H as [Hy Hl].
  destruct i as [|i]; simpl in Hi; [by simplify_eq|eauto].
Qed.

Lemma StronglySorted_concat_imap {A E : Type} (R : relation E)
    (g : nat -> A -> list E) (l : list A) :
  (forall i x, l !! i = Some x -> StronglySorted R (g i x)) ->
  (forall i j x y a b, (i < j)%nat -> l !! i = Some x -> l !! j = Some y ->
     a ∈ g i x -> b ∈ g j y -> R a b) ->
  StronglySorted R (List.concat (imap g l)).
Proof.
  revert g. induction l as [|y l IH]; intros g Hin Hcross; simpl; [constructor|].
  apply StronglySorted_app_2.
  - intros a b Ha (j & x & Hj & Hb)%elem_of_concat_imap.
    apply (Hcross 0%nat (S j) y x); [lia|done..].
  - by apply (Hin 0%nat).
  - apply IH.
    + intros i x Hi. by apply (Hin (S i)).
    + intros i j x z a b Hij Hi Hj. apply (Hcross (S i) (S j)); [lia|done..].
Qed.

Lemma StronglySorted_all {E : Type} (R : relation E) (l : list E) :
  (forall a b, a ∈ l -> b ∈ l -> R a b) -> StronglySorted R l.
Proof.
  induction l as [|x l IH]; intros Hl; constructor.
  - apply IH. intros a b Ha Hb. apply Hl; by right.
  - apply list.Forall_forall. intros b Hb. apply Hl; [left|by right].
Qed.

Lemma find_first {A : Type} (p : A -> bool) (l : list A) :
  match List.find p l with
  | Some h =>
      exists i : nat, l !! i = Some h /\ p h = true
        /\ forall j h', (j < i)%nat -> l !! j = Some h' -> p h' = false
  | None => forall h, h ∈ l -> p h = false
  end.
Proof.
  induction l as [|x l IH]; simpl.
  - by intros h ?%elem_of_nil.
  - destruct (p x) eqn:Ex.
    + exists 0%nat. split; [done|]. split; [done|]. intros; lia.
    + destruct (List.find p l) as [h|].
      * destruct IH as (i & Hi & Hp & Hmin). exists (S i).
        split; [done|]. split; [done|].
        intros [|j] h' Hj Hh'; simpl in Hh'; [by simplify_eq|].
        apply (Hmin j); [lia|done].
      * intros h [->|Hh]%elem_of_cons; auto.
Qed.

Lemma cellErrors_elem dateIsValid rowData rowIndex header colIndex e :
  e ∈ cellErrors dateIsValid rowData rowIndex header colIndex ->
  exists k, e = cellError rowIndex colIndex header k /\ k <> unique.
Proof.
  unfold cellErrors. destruct (isBlank _).
  - intros ->%list_elem_of_singleton. by exists blank.
  - unfold cellRules, ruleErrors. simpl. rewrite !elem_of_app.
    intros [H|[H|[H|[H|H]]]];
      match type of H with
      | _ ∈ (if ?b then _ else _) => destruct b
      | _ => idtac
      end;
      try (by apply elem_of_nil in H);
      apply list_elem_of_singleton in H as ->; eexists; split; eauto; done.
Qed.

Lemma cellError_position (rowIndex colIndex : nat) (header : string)
    (k : errorType) :
  row (cellError rowIndex colIndex header k) = Z.of_nat rowIndex + 2
  /\ addressColumn (cellAddress (cellError rowIndex colIndex header k))
     = Z.of_nat colIndex.
Proof. split; [done|]. simpl. apply addressColumn_getCellAddress. lia. Qed.

Lemma validateRow_elem dateIsValid rowData headers rowIndex e :
  e ∈ validateRow dateIsValid rowData headers rowIndex ->
  exists c h k, headers !! c = Some h /\ e = cellError rowIndex c h k
                /\ k <> unique.
Proof.
  rewrite validateRow_eq.
  intros (c & h & Hc & (k & -> & Hk)%cellErrors_elem)%elem_of_concat_imap.
  by exists c, h, k.
Qed.

(** The errors of [validateRow] at the address of a cell are the errors that
    cell contributed. *)
Lemma validateRow_at_cell dateIsValid rowData headers rowIndex colIndex header :
  headers !! colIndex = Some header ->
  filter (fun e => cellAddress e
                   = getCellAddress (Z.of_nat rowIndex + 1) (Z.of_nat colIndex))
    (validateRow dateIsValid rowData headers rowIndex)
  = cellErrors dateIsValid rowData rowIndex header colIndex.
Proof.
  intros Hc. rewrite validateRow_eq.
  apply (filter_concat_imap_single _
           (fun c h => cellErrors dateIsValid rowData rowIndex h c)); [done|..].
  - by intros e (k & -> & _)%cellErrors_elem.
  - intros c' h' e _ Hne (k & -> & _)%cellErrors_elem. simpl.
    by intros ?%getCellAddress_inj_col.
Qed.

Lemma validateRow_sorted dateIsValid rowData headers rowIndex :
  StronglySorted rowMajor (validateRow dateIsValid rowData headers rowIndex).
Proof.
  rewrite validateRow_eq. apply StronglySorted_concat_imap.
  - intros c h _. apply StronglySorted_all.
    intros a b (ka & -> & _)%cellErrors_elem (kb & -> & _)%cellErrors_elem.
    right. split; [done|].
    by rewrite !(proj2 (cellError_position _ _ _ _)).
  - intros c c' h h' a b Hcc _ _ (ka & -> & _)%cellErrors_elem
      (kb & -> & _)%cellErrors_elem.
    right. split; [done|].
    rewrite !(proj2 (cellError_position _ _ _ _)). lia.
Qed.

Lemma cellValid_no_errors dateIsValid rowData rowIndex header colIndex :
  cellValid dateIsValid rowData header = true ->
  cellErrors dateIsValid rowData rowIndex header colIndex = [].
Proof.
  unfold cellValid, cellErrors.
  intros [Hb Hr]%andb_true_iff. apply negb_true_iff in Hb. rewrite Hb.
  assert (Hk : forall k, k ∈ cellRules ->
            ruleErrors dateIsValid rowIndex colIndex header
              (trim (toString (getProp rowData header))) k = []).
  { intros k Hk. unfold ruleErrors.
    rewrite forallb_forall in Hr. apply list_elem_of_In, Hr in Hk.
    destruct (ruleApplies k header), (rulePasses dateIsValid k _);
      simpl in *; congruence. }
  unfold cellRules in *. simpl.
  rewrite !Hk by repeat constructor. reflexivity.
Qed.

Lemma uniqueKey_nonempty (header : string) (rowData : record) :
  uniqueKey header rowData <> "" ->
  uniqueKey header rowData = trim (toString (getProp rowData header)).
Proof.
  unfold uniqueKey, orElse.
  destruct (toBoolean (getProp rowData header)); [done|]. by intros [].
Qed.

Ltac not_listed :=
  rewrite !not_elem_of_cons; repeat split; try discriminate;
  apply not_elem_of_nil.

Lemma uniqueKey_of_trimmed (header : string) (rowData : record) (k : string) :
  trim (toString (getProp rowData header)) = k ->
  k ∉ ["undefined"; "null"; ""; "0"; "false"] ->
  uniqueKey header rowData = k.
Proof.
  intros Hk Hnot. unfold uniqueKey, orElse.
  destruct (getProp rowData header) as [| |s|n|[|]] eqn:Ev; simpl in *;
    try done; try by (exfalso; apply Hnot; subst k; vm_compute; repeat constructor).
  - destruct s; simpl; [|done]. exfalso; apply Hnot; subst k; vm_compute; repeat constructor.
  - destruct (Z.eqb_spec n 0) as [->|]; simpl; [|done].
    exfalso; apply Hnot; subst k; vm_compute; repeat constructor.
Qed.

Lemma isBlankSpec_uniqueKey (header : string) (rowData : record) :
  isBlankSpec (getProp rowData header) = true -> uniqueKey header rowData = "".
Proof.
  unfold uniqueKey, orElse.
  destruct (getProp rowData header) as [| |s|n|b]; simpl; try done.
  intros Hs. destruct (isEmpty s); simpl; [done|]. by apply trim_empty_iff.
Qed.

Lemma isBlank_uniqueKey (header : string) (rowData : record) :
  isBlank (getProp rowData header) = true -> uniqueKey header rowData = "".
Proof. intros H. by apply isBlankSpec_uniqueKey, isBlank_isBlankSpec. Qed.

Lemma duplicateAt_elem (header : string) (colIndex : nat) (keys : list string)
    (j : nat) (k : string) (e : ValidationError) :
  e ∈ duplicateAt header colIndex keys j k ->
  row e = Z.of_nat j + 2
  /\ addressColumn (cellAddress e) = Z.of_nat colIndex
  /\ type e = unique.
Proof.
  unfold duplicateAt. destruct (isEmpty k); [by intros ?%elem_of_nil|].
  destruct (firstIndex _ _); [|by intros ?%elem_of_nil].
  intros ->%list_elem_of_singleton. simpl. split; [done|]. split; [|done].
  apply addressColumn_getCellAddress. lia.
Qed.

Lemma duplicateAt_address (header : string) (colIndex : nat) (keys : list string)
    (j : nat) (k : string) (e : ValidationError) :
  e ∈ duplicateAt header colIndex keys j k ->
  cellAddress e = getCellAddress (Z.of_nat j + 1) (Z.of_nat colIndex).
Proof.
  unfold duplicateAt. destruct (isEmpty k); [by intros ?%elem_of_nil|].
  destruct (firstIndex _ _); [|by intros ?%elem_of_nil].
  by intros ->%list_elem_of_singleton.
Qed.

Lemma columnDuplicates_elem (data : list record) (header : string)
    (colIndex : nat) (e : ValidationError) :
  e ∈ columnDuplicates data header colIndex ->
  addressColumn (cellAddress e) = Z.of_nat colIndex /\ type e = unique.
Proof.
  unfold columnDuplicates. destruct (ruleApplies unique header);
    [|by intros ?%elem_of_nil].
  simpl. intros (j & k & _ & (_ & ? & ?)%duplicateAt_elem)%elem_of_concat_imap.
  done.
Qed.

Lemma columnDuplicates_sorted (data : list record) (header : string)
    (colIndex : nat) :
  StronglySorted columnMajor (columnDuplicates data header colIndex).
Proof.
  unfold columnDuplicates. destruct (ruleApplies unique header); [|constructor].
  simpl. apply StronglySorted_concat_imap.
  - intros j k _. unfold duplicateAt. destruct (isEmpty k); [constructor|].
    destruct (firstIndex _ _); repeat constructor.
  - intros j j' k k' a b Hjj _ _ (Ha1 & Ha2 & _)%duplicateAt_elem
      (Hb1 & Hb2 & _)%duplicateAt_elem.
    right. split; [congruence|lia].
Qed.

Lemma distinctNonEmpty_lookup (keys : list string) (o j : nat) (k : string) :
  distinctNonEmpty keys = true -> (o < j)%nat ->
  keys !! o = Some k -> keys !! j = Some k -> k = "".
Proof.
  revert o j. induction keys as [|x keys IH]; intros o j H Hoj Ho Hj; [done|].
  simpl in H. apply andb_true_iff in H as [Hx Hks].
  destruct o as [|o]; simpl in Ho.
  - injection Ho as ->. destruct j as [|j]; [lia|]. simpl in Hj.
    apply orb_true_iff in Hx as [Hx|Hx]; [by apply isEmpty_true|].
    apply negb_true_iff in Hx. exfalso.
    assert (existsb (String.eqb k) keys = true); [|congruence].
    apply existsb_exists. exists k. split; [|apply String.eqb_refl].
    apply list_elem_of_In. by eapply list_elem_of_lookup_2.
  - destruct j as [|j]; [lia|]. simpl in Hj. apply (IH o j); [done|lia|done..].
Qed.

Lemma distinct_no_duplicates (data : list record) (header : string)
    (colIndex : nat) :
  distinctNonEmpty
    (map (fun rowData => trim (toString (getProp rowData header))) data) = true ->
  columnDuplicates data header colIndex = [].
Proof.
  intros Hd. unfold columnDuplicates. destruct (ruleApplies unique header); [|done].
  simpl. apply concat_imap_nil. intros j k Hj. unfold duplicateAt.
  destruct (isEmpty k) eqn:Ek; [done|].
  destruct (firstIndex k (take j (map (uniqueKey header) data))) as [o|] eqn:Eo;
    [|done].
  exfalso. apply firstIndex_Some in Eo as [Ho _].
  apply lookup_take_Some in Ho as [Ho Hoj].
  apply list_lookup_fmap_Some in Ho as (ro & Hko & Hro).
  apply list_lookup_fmap_Some in Hj as (rj & Hkj & Hrj).
  apply isEmpty_false in Ek.
  assert (k = ""); [|done].
  apply (distinctNonEmpty_lookup _ o j k Hd Hoj).
  - rewrite list_lookup_fmap, Hro. simpl. f_equal.
    rewrite Hko. symmetry. apply uniqueKey_nonempty. by rewrite <- Hko.
  - rewrite list_lookup_fmap, Hrj. simpl. f_equal.
    rewrite Hkj. symmetry. apply uniqueKey_nonempty. by rewrite <- Hkj.
Qed.

(** Every [unique] error sits on a row whose non-empty key was first seen on
    an earlier row, and names that first row; and conversely. *)
Lemma checkUniqueConstraints_elem (data : list record) (headers : list string)
    (e : ValidationError) :
  e ∈ checkUniqueConstraints data headers
  <-> exists (c : nat) (h : string) (j o : nat) (k : string),
        headers !! c = Some h /\ ruleApplies unique h = true
        /\ (o < j)%nat /\ k <> ""
        /\ (uniqueKey h <$> data) !! j = Some k
        /\ (uniqueKey h <$> data) !! o = Some k
        /\ (forall o', (o' < o)%nat -> (uniqueKey h <$> data) !! o' <> Some k)
        /\ e = uniqueError h c j o.
Proof.
  rewrite checkUniqueConstraints_eq, elem_of_concat_imap. split.
  - intros (c & h & Hc & He). unfold columnDuplicates in He.
    destruct (ruleApplies unique h) eqn:Eh; [|by apply elem_of_nil in He].
    simpl in He. apply elem_of_concat_imap in He as (j & k & Hj & He).
    unfold duplicateAt in He.
    destruct (isEmpty k) eqn:Ek; [by apply elem_of_nil in He|].
    destruct (firstIndex k (take j (map (uniqueKey h) data))) as [o|] eqn:Eo;
      [|by apply elem_of_nil in He].
    apply list_elem_of_singleton in He as ->.
    apply firstIndex_Some in Eo as [Ho Hmin].
    apply lookup_take_Some in Ho as [Ho Hoj].
    exists c, h, j, o, k. repeat split; try done.
    + by apply isEmpty_false.
    + intros o' Ho'. specialize (Hmin o' Ho').
      rewrite lookup_take_lt in Hmin by lia. done.
  - intros (c & h & j & o & k & Hc & Eh & Hoj & Hk & Hj & Ho & Hmin & ->).
    exists c, h. split; [done|]. unfold columnDuplicates. rewrite Eh. simpl.
    apply elem_of_concat_imap. exists j, k. split; [done|].
    unfold duplicateAt. apply isEmpty_false in Hk. rewrite Hk.
    assert (firstIndex k (take j (map (uniqueKey h) data)) = Some o) as ->.
    { apply firstIndex_Some. split.
      - by rewrite lookup_take_lt.
      - intros o' Ho'. rewrite lookup_take_lt by lia. by apply Hmin. }
    by apply list_elem_of_singleton.
Qed.

(** The uniqueness errors at the address of a cell. *)
Lemma checkUniqueConstraints_at_cell (data : list record) (headers : list string)
    (i c : nat) (rowData : record) (header : string) :
  data !! i = Some rowData -> headers !! c = Some header ->
  filter (fun e => cellAddress e
                   = getCellAddress (Z.of_nat i + 1) (Z.of_nat c))
    (checkUniqueConstraints data headers)
  = if ruleApplies unique header
    then duplicateAt header c (map (uniqueKey header) data) i
           (uniqueKey header rowData)
    else [].
Proof.
  intros Hi Hc. rewrite checkUniqueConstraints_eq.
  rewrite (filter_concat_imap_at _ (fun c h => columnDuplicates data h c)
             headers c header); [|done|].
  - unfold columnDuplicates. destruct (ruleApplies unique header); [|done].
    simpl. apply filter_concat_imap_single.
    + by rewrite list_lookup_fmap, Hi.
    + intros e. apply duplicateAt_address.
    + intros j k e _ Hne He%duplicateAt_address. rewrite He.
      intros [? _]%getCellAddress_inj. lia.
  - intros c' h' e _ Hne [He _]%columnDuplicates_elem Heq.
    apply (f_equal addressColumn) in Heq.
    rewrite He, addressColumn_getCellAddress in Heq by lia. lia.
Qed.

Lemma validate_eq dateIsValid objectData headers :
  validate dateIsValid objectData headers
  = List.concat (imap (fun i rowData => validateRow dateIsValid rowData headers i)
                   objectData)
    ++ checkUniqueConstraints objectData headers.
Proof.
  unfold validate. f_equal.
  by apply (forEach_append _
              (fun rowData i => validateRow dateIsValid rowData headers i)).
Qed.

(** All errors of the two passes at the address of a cell: what the cell
    contributed to its row, then what its row contributed to the column's
    uniqueness check. *)
Lemma validate_at_cell dateIsValid (objectData : list record)
    (headers : list string) (i c : nat) (rowData : record) (header : string) :
  objectData !! i = Some rowData -> headers !! c = Some header ->
  filter (fun e => cellAddress e
                   = getCellAddress (Z.of_nat i + 1) (Z.of_nat c))
    (validate dateIsValid objectData headers)
  = cellErrors dateIsValid rowData i header c
    ++ (if ruleApplies unique header
        then duplicateAt header c (map (uniqueKey header) objectData) i
               (uniqueKey header rowData)
        else []).
Proof.
  intros Hi Hc. rewrite validate_eq, filter_app. f_equal.
  - rewrite (filter_concat_imap_at _
               (fun i rowData => validateRow dateIsValid rowData headers i)
               objectData i rowData); [by apply validateRow_at_cell|done|].
    intros i' r' e _ Hne (c' & h' & k & _ & -> & _)%validateRow_elem. simpl.
    intros [? _]%getCellAddress_inj. lia.
  - by apply checkUniqueConstraints_at_cell.
Qed.

Lemma nameColumn_isSortColumn (headers : list string) :
  isSortColumn headers (nameColumn headers).
Proof.
  unfold nameColumn. fold isNameLike.
  change (fun h : string => isNameLike h) with isNameLike.
  pose proof (find_first isNameLike headers) as H.
  destruct (List.find isNameLike headers) as [h|].
  - destruct H as (i & Hi & Hp & Hmin).
    destruct h as [|a h]; [discriminate|]. simpl.
    left. by exists i, (String a h).
  - by right.
Qed.

Lemma codeUnitCompare_le (a b : string) :
  codeUnitCompare a b <= 0 <-> String.le a b.
Proof.
  unfold codeUnitCompare, String.le, String.leb.
  destruct (String.compare a b); simpl; split; done || lia.
Qed.

Lemma codeUnitCompare_total (a b : string) :
  codeUnitCompare a b <= 0 \/ codeUnitCompare b a <= 0.
Proof. rewrite !codeUnitCompare_le. apply (total String.le). Qed.

Lemma codeUnitCompare_trans (a b c : string) :
  codeUnitCompare a b <= 0 -> codeUnitCompare b c <= 0 ->
  codeUnitCompare a c <= 0.
Proof. rewrite !codeUnitCompare_le. apply (transitivity (R:=String.le)). Qed.

(** Lower-casing leaves white space as it is. *)
Lemma lowerChar_space (c : ascii) : isWhiteSpace c = true -> lowerChar c = c.
Proof. destruct c as [[] [] [] [] [] [] [] []]; vm_compute; congruence. Qed.

Lemma toLowerCase_space (s : string) :
  isWhiteSpaceOnly s = true -> toLowerCase s = s.
Proof.
  unfold isWhiteSpaceOnly. induction s as [|c s IH]; simpl; [done|].
  intros [Hc Hs]%andb_prop. by rewrite lowerChar_space, IH.
Qed.

End Passes.

(** ** The embedding on concrete inputs *)

Module Examples.
Import JS ExcelProcessor Spec.

Example number_classes :
  map Number ["12"; " 12.5e3 "; ""; "0x1F"; "1e308"; ".5"; "5."]
  = [IsFinite; IsFinite; IsFinite; IsFinite; IsFinite; IsFinite; IsFinite]
  /\ map Number ["abc"; "1e"; "."; "0x"; "+-1"; "1_0"; "--1"; "12px"]
     = [IsNaN; IsNaN; IsNaN; IsNaN; IsNaN; IsNaN; IsNaN; IsNaN]
  /\ map Number ["Infinity"; "-Infinity"; "1e400"; "1.8e308"]
     = [IsInfinite; IsInfinite; IsInfinite; IsInfinite].
Proof. repeat split; vm_compute; reflexivity. Qed.

Example validators_accept :
  validateEmail "a@x.com" = true /\ validateEmail "bad" = false
  /\ validateEmail "a b@x.com" = false /\ validateEmail "a@b@x.com" = false
  /\ validatePhone "1234567890" = true /\ validatePhone "(123) 456-7890" = true
  /\ validatePhone "123" = false /\ validatePhone "12345678901" = false
  /\ validateNumeric "42" = true /\ validateNumeric "4 2" = false.
Proof. repeat split; vm_compute; reflexivity. Qed.

Example column_letters :
  map columnLetters [0; 1; 25; 26; 27; 51; 52; 701; 702; 703]
  = ["A"; "B"; "Z"; "AA"; "AB"; "AZ"; "BA"; "ZZ"; "AAA"; "AAB"].
Proof. vm_compute. reflexivity. Qed.

(** The first end-to-end scenario of the specification: the second row has
    a bad email, a short phone number and a repeated ID. *)
Example upload_with_errors :
  processFile isoDateOnly codeUnitCompare ["Name"; "Email"; "Phone"; "ID"]
    [ [VString "Alice"; VString "a@x.com"; VString "1234567890"; VString "1"];
      [VString "bob"; VString "bad"; VString "123"; VString "1"] ]
  = mkResult None
      [ mkError "B3" 3 "Email" "Invalid email format" email;
        mkError "C3" 3 "Phone" "Phone number must be exactly 10 digits" phone;
        mkError "D3" 3 "ID" "Duplicate value found (also in row 2)" unique ].
Proof. vm_compute. reflexivity. Qed.

(** The second scenario: clean rows come back sorted by name, whatever the
    case. *)
Example upload_clean :
  let result :=
    processFile isoDateOnly codeUnitCompare ["Name"; "Email"; "Phone"; "ID"]
      [ [VString "Bob"; VString "b@x.com"; VString "1234567890"; VString "1"];
        [VString "alice"; VString "a@x.com"; VString "0987654321"; VString "2"] ]
  in
  errors result = []
  /\ (rows <$> data result)
     = Some [ [VString "alice"; VString "a@x.com"; VString "0987654321";
               VString "2"];
              [VString "Bob"; VString "b@x.com"; VString "1234567890";
               VString "1"] ].
Proof. split; vm_compute; reflexivity. Qed.

End Examples.

(** ** The properties of the specification *)

Import JS JSFacts ExcelProcessor Spec ExcelFacts Address Uniqueness Sorting Passes.

(** C1, as the code has it. A cell whose raw value is absent, null or the
    empty string yields exactly one error, of kind [blank], and no error of
    another kind: among all errors of the two passes, those at that cell's
    address are that one [blank] error. *)
Theorem blank_cell_single_error (dateIsValid : string -> bool)
    (objectData : list record) (headers : list string) (rowIndex colIndex : nat)
    (rowData : record) (header : string) :
  objectData !! rowIndex = Some rowData ->
  headers !! colIndex = Some header ->
  isBlank (getProp rowData header) = true ->
  filter (fun e => cellAddress e
                   = getCellAddress (Z.of_nat rowIndex + 1) (Z.of_nat colIndex))
    (validate dateIsValid objectData headers)
  = [mkError (getCellAddress (Z.of_nat rowIndex + 1) (Z.of_nat colIndex))
       (Z.of_nat rowIndex + 2) header "This field cannot be empty" blank].
Proof.
  intros Hi Hc Hb. rewrite (validate_at_cell _ _ _ _ _ rowData header) by done.
  unfold cellErrors, duplicateAt. rewrite Hb, isBlank_uniqueKey by done.
  by destruct (ruleApplies unique header).
Qed.

(** An upload with an empty Email cell in its second row. *)
Lemma blank_cell_single_error_witness :
  let headers := ["Name"; "Email"; "ID"] in
  let ann : record :=
    {[ "Name" := VString "Ann"; "Email" := VString "ann@x.org";
       "ID" := VNumber 7 ]} in
  let ben : record :=
    {[ "Name" := VString "Ben"; "Email" := VString ""; "ID" := VNull ]} in
  [ann; ben] !! 1%nat = Some ben
  /\ headers !! 1%nat = Some "Email"
  /\ isBlank (getProp ben "Email") = true
  /\ filter (fun e => cellAddress e
                      = getCellAddress (Z.of_nat 1 + 1) (Z.of_nat 1))
       (validate isoDateOnly [ann; ben] headers)
     = [mkError (getCellAddress (Z.of_nat 1 + 1) (Z.of_nat 1))
          (Z.of_nat 1 + 2) "Email" "This field cannot be empty" blank].
Proof.
  intros headers ann ben.
  split; [reflexivity|]. split; [reflexivity|]. split; [reflexivity|].
  apply (blank_cell_single_error isoDateOnly [ann; ben] headers 1 1 ben "Email");
    reflexivity.
Defined.

(** C1, as stated, fails: a cell holding white space only is blank in the
    words of the specification, yet in a plain column it yields no error at
    all, and in an email column it yields an [email] error, not a [blank]
    one. *)
Lemma whitespace_cell_not_blank :
  let rowData : record := {[ "Name" := VString "  "; "Email" := VString " " ]} in
  let headers := ["Name"; "Email"] in
  let errorsAt (colIndex : nat) :=
    filter (fun e => cellAddress e
                     = getCellAddress (Z.of_nat 0 + 1) (Z.of_nat colIndex))
      (validate isoDateOnly [rowData] headers) in
  isBlankSpec (getProp rowData "Name") = true
  /\ isBlankSpec (getProp rowData "Email") = true
  /\ errorsAt 0%nat = []
  /\ errorsAt 1%nat = [mkError "B2" 2 "Email" "Invalid email format" email]
  /\ validate isoDateOnly [rowData] headers
     = [mkError "B2" 2 "Email" "Invalid email format" email].
Proof. repeat split; vm_compute; reflexivity. Qed.

(** C2. If every cell is non-blank and satisfies every rule its column name
    selects, and no identity column holds the same trimmed, stringified,
    non-blank value in two rows, validation returns no error. *)
Theorem clean_data_no_errors (dateIsValid : string -> bool)
    (objectData : list record) (headers : list string) :
  allCellsValid dateIsValid objectData headers = true ->
  identityColumnsDistinct objectData headers = true ->
  validate dateIsValid objectData headers = [].
Proof.
  intros Hcells Hids. rewrite validate_eq.
  rewrite concat_imap_nil; simpl.
  - rewrite checkUniqueConstraints_eq. apply concat_imap_nil.
    intros c h Hc. unfold identityColumnsDistinct in Hids.
    pose proof (forallb_lookup _ _ _ _ Hids Hc) as Hh. cbv beta in Hh.
    unfold columnDuplicates.
    destruct (ruleApplies unique h) eqn:Eh; [|done].
    pose proof (distinct_no_duplicates objectData h c Hh) as Hno.
    unfold columnDuplicates in Hno. by rewrite Eh in Hno.
  - intros i rowData Hi. rewrite validateRow_eq. apply concat_imap_nil.
    intros c h Hc. apply cellValid_no_errors.
    unfold allCellsValid in Hcells.
    pose proof (forallb_lookup _ _ _ _ Hcells Hi) as Hrow. simpl in Hrow.
    exact (forallb_lookup _ _ _ _ Hrow Hc).
Qed.

(** A clean upload of two rows. *)
Lemma clean_data_no_errors_witness :
  let headers := ["Name"; "Email"; "Phone"; "ID"; "Age"] in
  let objectData : list record :=
    [ {[ "Name" := VString "Bob"; "Email" := VString "b@x.com";
         "Phone" := VString "(123) 456-7890"; "ID" := VString "1";
         "Age" := VNumber 41 ]};
      {[ "Name" := VString "alice"; "Email" := VString " a@x.org ";
         "Phone" := VNumber 1234567891; "ID" := VNumber 2;
         "Age" := VString "3.5e1" ]} ] in
  allCellsValid isoDateOnly objectData headers = true
  /\ identityColumnsDistinct objectData headers = true
  /\ validate isoDateOnly objectData headers = [].
Proof.
  intros headers objectData.
  assert (H1 : allCellsValid isoDateOnly objectData headers = true)
    by (vm_compute; reflexivity).
  assert (H2 : identityColumnsDistinct objectData headers = true)
    by (vm_compute; reflexivity).
  split; [exact H1|]. split; [exact H2|].
  exact (clean_data_no_errors isoDateOnly objectData headers H1 H2).
Defined.

(** C3. Processing has exactly two outcomes: the full, non-empty error list
    with no dataset, or no error and a dataset that holds every input row.
    A dataset never comes with errors. *)
Theorem all_or_nothing (dateIsValid : string -> bool)
    (localeCompare : string -> string -> Z)
    (headers : list string) (dataRows : list (list value)) :
  let objectData := map (toObject headers) dataRows in
  let r := processFile dateIsValid localeCompare headers dataRows in
  errors r = validate dateIsValid objectData headers
  /\ ((errors r <> [] /\ data r = None)
      \/ (errors r = []
          /\ exists d, data r = Some d
               /\ ExcelProcessor.headers d = headers
               /\ Permutation (originalData d) objectData
               /\ rows d
                  = map (fun rowData => map (getProp rowData) headers)
                      (originalData d))).
Proof.
  intros objectData r. unfold r, processFile. fold objectData.
  destruct (validate dateIsValid objectData headers) as [|e es] eqn:E; simpl.
  - split; [done|]. right. split; [done|]. eexists. split; [done|]. simpl.
    split; [done|]. split; [apply sort_Permutation|done].
  - split; [done|]. left. done.
Qed.

(** C4. In an identity column whose rows hold the trimmed values A1, A1, B2
    the uniqueness pass emits exactly one error: kind [unique], on display
    row 3, its message naming display row 2.  In general an error is emitted
    exactly for a row whose non-empty key equals, as a string, the key of an
    earlier row, and it names the first such row; so a first occurrence is
    never flagged, and blank values (key ['']) are never flagged. *)
Theorem duplicate_flagged_once (header : string) (r1 r2 r3 : record) :
  ruleApplies unique header = true ->
  trim (toString (getProp r1 header)) = "A1" ->
  trim (toString (getProp r2 header)) = "A1" ->
  trim (toString (getProp r3 header)) = "B2" ->
  checkUniqueConstraints [r1; r2; r3] [header]
  = [mkError "A3" 3 header "Duplicate value found (also in row 2)" unique]
  /\ (forall (data : list record) (headers : list string) (e : ValidationError),
        e ∈ checkUniqueConstraints data headers
        <-> exists (c : nat) (h : string) (j o : nat) (k : string),
              headers !! c = Some h /\ ruleApplies unique h = true
              /\ (o < j)%nat /\ k <> ""
              /\ (uniqueKey h <$> data) !! j = Some k
              /\ (uniqueKey h <$> data) !! o = Some k
              /\ (forall o', (o' < o)%nat ->
                    (uniqueKey h <$> data) !! o' <> Some k)
              /\ e = uniqueError h c j o)
  /\ (forall (h : string) (rowData : record),
        isBlankSpec (getProp rowData h) = true -> uniqueKey h rowData = "").
Proof.
  intros Hid H1 H2 H3. split; [|split].
  - rewrite checkUniqueConstraints_eq. simpl. unfold columnDuplicates.
    rewrite Hid. simpl.
    rewrite (uniqueKey_of_trimmed header r1 "A1") by (done || not_listed).
    rewrite (uniqueKey_of_trimmed header r2 "A1") by (done || not_listed).
    rewrite (uniqueKey_of_trimmed header r3 "B2") by (done || not_listed).
    vm_compute. reflexivity.
  - apply checkUniqueConstraints_elem.
  - apply isBlankSpec_uniqueKey.
Qed.

(** Raw values that differ by surrounding white space only. *)
Lemma duplicate_flagged_once_witness :
  let r1 : record := {[ "Student ID" := VString " A1" ]} in
  let r2 : record := {[ "Student ID" := VString "A1  " ]} in
  let r3 : record := {[ "Student ID" := VString "B2" ]} in
  ruleApplies unique "Student ID" = true
  /\ trim (toString (getProp r1 "Student ID")) = "A1"
  /\ trim (toString (getProp r2 "Student ID")) = "A1"
  /\ trim (toString (getProp r3 "Student ID")) = "B2"
  /\ checkUniqueConstraints [r1; r2; r3] ["Student ID"]
     = [mkError "A3" 3 "Student ID" "Duplicate value found (also in row 2)"
          unique].
Proof.
  intros r1 r2 r3.
  assert (H0 : ruleApplies unique "Student ID" = true) by reflexivity.
  assert (H1 : trim (toString (getProp r1 "Student ID")) = "A1") by reflexivity.
  assert (H2 : trim (toString (getProp r2 "Student ID")) = "A1") by reflexivity.
  assert (H3 : trim (toString (getProp r3 "Student ID")) = "B2") by reflexivity.
  repeat (split; [assumption|]).
  exact (proj1 (duplicate_flagged_once "Student ID" r1 r2 r3 H0 H1 H2 H3)).
Defined.

(** C5. Cell addresses are spreadsheet-style: column indices 0, 25 and 26
    give the letters A, Z and AA, the letters are the bijective base-26
    numeral of the 0-indexed column, and the first data row (index 0) is
    display row 2: every error of either pass comes from a cell at some row
    index [i] and column index [c], carries [row = i + 2], the name of that
    column, and an address made of the letters of column [c] followed by
    [i + 2]. *)
Theorem cell_address_scheme :
  columnLetters 0 = "A" /\ columnLetters 25 = "Z" /\ columnLetters 26 = "AA"
  /\ (forall col : Z, getCellAddress (0 + 1) col = columnLetters col +:+ "2")
  /\ (forall n : nat,
        allUpper (columnLetters (Z.of_nat n)) = true
        /\ lettersValue 0 (columnLetters (Z.of_nat n)) = Z.of_nat n + 1)
  /\ (forall dateIsValid (objectData : list record) (headers : list string),
        Forall (fun e =>
                  exists (i c : nat) (header : string),
                    (i < List.length objectData)%nat
                    /\ headers !! c = Some header
                    /\ row e = Z.of_nat i + 2
                    /\ column e = header
                    /\ cellAddress e
                       = columnLetters (Z.of_nat c) +:+ pretty (Z.of_nat i + 2))
          (validate dateIsValid objectData headers)).
Proof.
  repeat split; try reflexivity.
  - apply allUpper_columnLetters.
  - apply lettersValue_columnLetters. lia.
  - intros dateIsValid objectData headers.
    rewrite list.Forall_forall. intros e. rewrite validate_eq, elem_of_app.
    intros [(i & rowData & Hi & He)%elem_of_concat_imap|He].
    + apply validateRow_elem in He as (c & h & k & Hc & -> & _).
      exists i, c, h. split; [by eapply lookup_lt_Some|]. split; [done|].
      simpl. repeat split. unfold getCellAddress. do 2 f_equal. lia.
    + apply checkUniqueConstraints_elem in He
        as (c & h & j & o & k & Hc & _ & _ & _ & Hj & _ & _ & ->).
      exists j, c, h. split.
      { apply lookup_lt_Some in Hj. by rewrite length_fmap in Hj. }
      split; [done|]. simpl. repeat split.
      unfold getCellAddress. do 2 f_equal. lia.
Qed.

(** C6, as the code has it.  With no validation error, the sort column is
    the first header that contains "name" or "title" in any case, else the
    first header; the dataset holds the input records, sorted under the
    locale comparison by the key [String(v || '').toLowerCase()] of that
    column's value [v]: the lower-cased string of a truthy value, and the
    empty string for every falsy one (absent, null, the empty string, and
    also the number 0 and the boolean false).  A string of white space is
    truthy and is its own key.  Records the comparison ties, and so records
    with equal keys, keep their input order. *)
Theorem sorted_by_name_column (dateIsValid : string -> bool)
    (localeCompare : string -> string -> Z)
    (headers : list string) (dataRows : list (list value)) :
  (forall a b, localeCompare a b <= 0 \/ localeCompare b a <= 0) ->
  (forall a b c, localeCompare a b <= 0 -> localeCompare b c <= 0 ->
     localeCompare a c <= 0) ->
  let objectData := map (toObject headers) dataRows in
  validate dateIsValid objectData headers = [] ->
  let col := nameColumn headers in
  isSortColumn headers col
  /\ (forall a : record,
        sortKey col a
        = let v := getProp a (propertyKey col) in
          if toBoolean v then toLowerCase (toString v) else "")
  /\ (forall a : record,
        isBlank (getProp a (propertyKey col)) = true -> sortKey col a = "")
  /\ (forall (a : record) (s : string),
        getProp a (propertyKey col) = VString s ->
        isWhiteSpaceOnly s = true -> s <> "" -> sortKey col a = s)
  /\ exists d,
       processFile dateIsValid localeCompare headers dataRows = mkResult (Some d) []
       /\ ExcelProcessor.headers d = headers
       /\ rows d = map (fun a => map (getProp a) headers) (originalData d)
       /\ Permutation (originalData d) objectData
       /\ StronglySorted
            (fun a b => localeCompare (sortKey col a) (sortKey col b) <= 0)
            (originalData d)
       /\ (forall key : string,
             filter (fun a => localeCompare (sortKey col a) key <= 0
                              /\ localeCompare key (sortKey col a) <= 0)
               (originalData d)
             = filter (fun a => localeCompare (sortKey col a) key <= 0
                                /\ localeCompare key (sortKey col a) <= 0)
                 objectData)
       /\ (forall key : string,
             filter (fun a => sortKey col a = key) (originalData d)
             = filter (fun a => sortKey col a = key) objectData).
Proof.
  intros Htotal Htrans objectData Hvalid col.
  split; [apply nameColumn_isSortColumn|].
  assert (Hkey : forall a : record,
            sortKey col a
            = let v := getProp a (propertyKey col) in
              if toBoolean v then toLowerCase (toString v) else "").
  { intros a. unfold sortKey, orElse. simpl.
    by destruct (toBoolean (getProp a (propertyKey col))). }
  split; [exact Hkey|]. split.
  { intros a Hb. rewrite Hkey. simpl.
    by destruct (getProp a (propertyKey col)) as [| |[|c s]| |]. }
  split.
  { intros a s Hs Hws Hne. rewrite Hkey, Hs. simpl.
    destruct s as [|c s]; [done|]. simpl isEmpty. simpl negb.
    by apply toLowerCase_space. }
  unfold processFile. fold objectData. rewrite Hvalid. simpl. fold col.
  eexists. split; [reflexivity|]. simpl.
  split; [done|]. split; [done|]. split; [apply sort_Permutation|].
  split; [|split].
  - apply (sort_sorted (compareRows localeCompare col)); unfold compareRows; eauto.
  - intros key. apply (sort_filter (compareRows localeCompare col)).
    unfold compareRows. intros a b [Ha _] [_ Hb]. eauto.
  - intros key. apply (sort_filter (compareRows localeCompare col)).
    unfold compareRows. intros a b Ha Hb. rewrite Ha, Hb.
    by destruct (Htotal key key).
Qed.

(** Three rows, two of them with the same lower-cased name, compared by
    code units. *)
Lemma sorted_by_name_column_witness :
  let headers := ["ID"; "Full Name"; "Title"] in
  let dataRows :=
    [ [VNumber 1; VString "Bob"; VString "Dr"];
      [VNumber 2; VString "alice"; VString "Ms"];
      [VNumber 3; VString "BOB"; VString "Mr"] ] in
  let objectData := map (toObject headers) dataRows in
  validate isoDateOnly objectData headers = []
  /\ nameColumn headers = Some "Full Name"
  /\ exists d,
       processFile isoDateOnly codeUnitCompare headers dataRows
       = mkResult (Some d) []
       /\ rows d = [ [VNumber 2; VString "alice"; VString "Ms"];
                     [VNumber 1; VString "Bob"; VString "Dr"];
                     [VNumber 3; VString "BOB"; VString "Mr"] ].
Proof.
  intros headers dataRows objectData.
  assert (Hvalid : validate isoDateOnly objectData headers = [])
    by (vm_compute; reflexivity).
  split; [exact Hvalid|]. split; [reflexivity|].
  destruct (sorted_by_name_column isoDateOnly codeUnitCompare headers dataRows
              codeUnitCompare_total codeUnitCompare_trans Hvalid)
    as (_ & _ & _ & _ & d & Hd & _).
  exists d. split; [exact Hd|].
  assert (Hrun : processFile isoDateOnly codeUnitCompare headers dataRows
                 = mkResult (Some d) []) by exact Hd.
  vm_compute in Hrun. injection Hrun as <-. vm_compute. reflexivity.
Defined.

(** C6 as the specification words it, the key being the lower-cased string
    of the value with blank and absent values counting as empty, fails on
    two accepted sheets.  In the first the boolean false, which is not
    blank and whose string "false" sorts after "a", has the key [""] and
    its record comes first.  In the second two cells of white space, both
    blank in the specification's sense and so tied in input order, are
    compared as they are, and the shorter one comes first. *)
Lemma falsy_value_sorts_first :
  let headers := ["Name"] in
  let withFalse := [ [VString "a"]; [VBoolean false] ] in
  let withSpaces := [ [VString "  "]; [VString " "] ] in
  (validate isoDateOnly (map (toObject headers) withFalse) headers = []
   /\ nameColumn headers = Some "Name"
   /\ isBlankSpec (VBoolean false) = false
   /\ toLowerCase (toString (VBoolean false)) = "false"
   /\ codeUnitCompare "a" "false" < 0
   /\ sortKey (nameColumn headers) (toObject headers [VBoolean false]) = ""
   /\ exists d,
        processFile isoDateOnly codeUnitCompare headers withFalse
        = mkResult (Some d) []
        /\ rows d = [ [VBoolean false]; [VString "a"] ])
  /\ (validate isoDateOnly (map (toObject headers) withSpaces) headers = []
      /\ isBlankSpec (VString "  ") = true
      /\ isBlankSpec (VString " ") = true
      /\ sortKey (nameColumn headers) (toObject headers [VString "  "]) = "  "
      /\ sortKey (nameColumn headers) (toObject headers [VString " "]) = " "
      /\ exists d,
           processFile isoDateOnly codeUnitCompare headers withSpaces
           = mkResult (Some d) []
           /\ rows d = [ [VString " "]; [VString "  "] ]).
Proof.
  intros headers withFalse withSpaces. split.
  - do 6 (split; [vm_compute; reflexivity|]).
    eexists. split; vm_compute; reflexivity.
  - do 5 (split; [vm_compute; reflexivity|]).
    eexists. split; vm_compute; reflexivity.
Qed.

(** C7. The error sequence is the row-validation errors followed by the
    uniqueness errors.  The first part holds no [unique] error and is in
    row-major order (by row, then by column within the row); the second
    part holds [unique] errors only and is ordered by the position of the
    identity column among the headers, then by row. *)
Theorem error_order (dateIsValid : string -> bool) (objectData : list record)
    (headers : list string) :
  let rowErrors :=
    List.concat (imap (fun i rowData => validateRow dateIsValid rowData headers i)
                   objectData) in
  let uniqueErrors := checkUniqueConstraints objectData headers in
  validate dateIsValid objectData headers = rowErrors ++ uniqueErrors
  /\ Forall (fun e => type e <> unique) rowErrors
  /\ Forall (fun e => type e = unique) uniqueErrors
  /\ StronglySorted rowMajor rowErrors
  /\ StronglySorted columnMajor uniqueErrors.
Proof.
  intros rowErrors uniqueErrors. split; [apply validate_eq|].
  split; [|split; [|split]].
  - apply list.Forall_forall.
    intros e (i & rowData & _ & He)%elem_of_concat_imap.
    by apply validateRow_elem in He as (c & h & k & _ & -> & Hk).
  - apply list.Forall_forall. unfold uniqueErrors.
    rewrite checkUniqueConstraints_eq.
    intros e (c & h & _ & He)%elem_of_concat_imap.
    by apply columnDuplicates_elem in He as [_ ?].
  - apply StronglySorted_concat_imap.
    + intros i rowData _. apply validateRow_sorted.
    + intros i i' r r' a b Hii _ _
        (c & h & k & _ & -> & _)%validateRow_elem
        (c' & h' & k' & _ & -> & _)%validateRow_elem.
      left. simpl. lia.
  - unfold uniqueErrors. rewrite checkUniqueConstraints_eq.
    apply StronglySorted_concat_imap.
    + intros c h _. apply columnDuplicates_sorted.
    + intros c c' h h' a b Hcc _ _ [Ha _]%columnDuplicates_elem
        [Hb _]%columnDuplicates_elem.
      left. lia.
Qed.

(** C8. For a non-blank cell every per-cell rule is decided on its own: among
    all errors of the two passes, those of kind [k] at the cell's address are
    one error when the column name selects rule [k] and the trimmed value
    fails validator [k], and none otherwise, whatever the other rules do.  A
    cell can so carry several errors of different kinds. *)
Theorem rules_checked_independently (dateIsValid : string -> bool)
    (objectData : list record) (headers : list string) (rowIndex colIndex : nat)
    (rowData : record) (header : string) (k : errorType) :
  objectData !! rowIndex = Some rowData ->
  headers !! colIndex = Some header ->
  isBlank (getProp rowData header) = false ->
  k ∈ cellRules ->
  filter (fun e => type e = k)
    (filter (fun e => cellAddress e
                      = getCellAddress (Z.of_nat rowIndex + 1) (Z.of_nat colIndex))
       (validate dateIsValid objectData headers))
  = if ruleApplies k header
       && negb (rulePasses dateIsValid k (trim (toString (getProp rowData header))))
    then [mkError (getCellAddress (Z.of_nat rowIndex + 1) (Z.of_nat colIndex))
            (Z.of_nat rowIndex + 2) header (ruleMessage k) k]
    else [].
Proof.
  intros Hi Hc Hb Hk. rewrite (validate_at_cell _ _ _ _ _ rowData header) by done.
  rewrite filter_app.
  rewrite (filter_none _ (if ruleApplies unique header then _ else _)).
  - rewrite app_nil_r.
    unfold cellErrors. rewrite Hb. unfold cellRules in *. simpl.
    unfold ruleErrors, cellError.
    set (v := trim (toString (getProp rowData header))).
    set (a := getCellAddress _ _).
    assert (k = email \/ k = phone \/ k = numeric \/ k = date)
      as [-> | [-> | [-> | ->]]] by (set_unfold; tauto);
      destruct (ruleApplies email header && negb (rulePasses dateIsValid email v));
      destruct (ruleApplies phone header && negb (rulePasses dateIsValid phone v));
      destruct (ruleApplies numeric header
                && negb (rulePasses dateIsValid numeric v));
      destruct (ruleApplies date header && negb (rulePasses dateIsValid date v));
      reflexivity.
  - intros e He Hty. destruct (ruleApplies unique header);
      [|by apply elem_of_nil in He].
    apply duplicateAt_elem in He as (_ & _ & Hu). rewrite Hu in Hty. subst k.
    unfold cellRules in Hk.
    repeat (apply elem_of_cons in Hk as [Hk|Hk]; [discriminate|]).
    by apply elem_of_nil in Hk.
Qed.

(** The column "email_number" with the value "abc". *)
Lemma rules_checked_independently_witness :
  let rowData : record := {[ "email_number" := VString "abc" ]} in
  let headers := ["email_number"] in
  let atCell := filter (fun e => cellAddress e
                                 = getCellAddress (Z.of_nat 0 + 1) (Z.of_nat 0))
                  (validate isoDateOnly [rowData] headers) in
  [rowData] !! 0%nat = Some rowData
  /\ headers !! 0%nat = Some "email_number"
  /\ isBlank (getProp rowData "email_number") = false
  /\ email ∈ cellRules /\ numeric ∈ cellRules
  /\ filter (fun e => type e = email) atCell
     = [mkError "A2" 2 "email_number" "Invalid email format" email]
  /\ filter (fun e => type e = numeric) atCell
     = [mkError "A2" 2 "email_number" "Must be a valid number" numeric]
  /\ validate isoDateOnly [rowData] headers
     = [mkError "A2" 2 "email_number" "Invalid email format" email;
        mkError "A2" 2 "email_number" "Must be a valid number" numeric].
Proof.
  intros rowData headers atCell.
  assert (H0 : [rowData] !! 0%nat = Some rowData) by reflexivity.
  assert (H1 : headers !! 0%nat = Some "email_number") by reflexivity.
  assert (H2 : isBlank (getProp rowData "email_number") = false) by reflexivity.
  assert (H3 : email ∈ cellRules) by (unfold cellRules; repeat constructor).
  assert (H4 : numeric ∈ cellRules) by (unfold cellRules; repeat constructor).
  split; [exact H0|]. split; [exact H1|]. split; [exact H2|].
  split; [exact H3|]. split; [exact H4|].
  split; [|split].
  - exact (rules_checked_independently isoDateOnly [rowData] headers 0 0
             rowData "email_number" email H0 H1 H2 H3).
  - exact (rules_checked_independently isoDateOnly [rowData] headers 0 0
             rowData "email_number" numeric H0 H1 H2 H4).
  - vm_compute. reflexivity.
Defined.

(** C9. An empty or white-space-only query gives an empty result, and so
    does a query the index matches nothing for; [search] is a total
    function to a sequence of rows and has no failure outcome. *)
Theorem search_blank_or_unmatched_is_empty {Item : Type}
    (fuseSearch : string -> list (@FuzzySearch.FuseResult Item))
    (query : string) :
  isWhiteSpaceOnly query = true \/ fuseSearch query = [] ->
  FuzzySearch.search fuseSearch query = [].
Proof.
  unfold FuzzySearch.search. intros [Hq|Hq].
  - apply trim_empty_iff in Hq. by rewrite Hq.
  - rewrite Hq. by destruct (isEmpty (trim query)).
Qed.

(** An index that matches every query, asked a query of three spaces. *)
Lemma search_blank_or_unmatched_is_empty_witness :
  isWhiteSpaceOnly "   " = true
  /\ FuzzySearch.search
       (fun _ => [FuzzySearch.mkFuseResult (VString "Alice") 0]) "   " = [].
Proof.
  split; [reflexivity|].
  apply search_blank_or_unmatched_is_empty. left. reflexivity.
Defined.

(** C10. The uniqueness pass skips an identity cell whose raw value is
    falsy (absent, null, the empty string, the number 0, [false]), before
    any stringification: the callback leaves the map of seen values and the
    error list as they were, so the pass never flags that cell and never
    names its row as the first occurrence of a value.  Two rows holding the
    number 0 thus give no [unique] error although their trimmed strings are
    equal. *)
Theorem falsy_identity_value_skipped (data : list record)
    (headers : list string) (rowIndex colIndex : nat) (rowData : record)
    (header : string) :
  data !! rowIndex = Some rowData ->
  headers !! colIndex = Some header ->
  toBoolean (getProp rowData header) = false ->
  (forall st, uniqueCell header colIndex st rowData rowIndex = st)
  /\ filter (fun e => cellAddress e
                      = getCellAddress (Z.of_nat rowIndex + 1)
                          (Z.of_nat colIndex))
       (checkUniqueConstraints data headers) = []
  /\ Forall (fun e => forall j : nat,
                        e <> uniqueError header colIndex j rowIndex)
       (checkUniqueConstraints data headers).
Proof.
  intros Hi Hc Hv.
  assert (Hkey : uniqueKey header rowData = "").
  { unfold uniqueKey, orElse. by rewrite Hv. }
  split; [|split].
  - intros [values errs]. unfold uniqueCell, orElse. by rewrite Hv.
  - rewrite (checkUniqueConstraints_at_cell _ _ _ _ rowData header) by done.
    unfold duplicateAt. rewrite Hkey. by destruct (ruleApplies unique header).
  - apply list.Forall_forall. intros e He j ->.
    apply checkUniqueConstraints_elem in He
      as (c & h & j' & o & k & _ & _ & _ & Hk & _ & Ho & _ & Heq).
    injection Heq as Haddr _ Hcol Hmsg. subst h.
    apply (inj (String.append _)) in Hmsg. apply append_inv_tail in Hmsg.
    apply (inj pretty) in Hmsg. assert (o = rowIndex) as -> by lia.
    rewrite list_lookup_fmap, Hi in Ho. simpl in Ho. congruence.
Qed.

(** Two rows whose ID is the number 0, two whose ID is [false], and two
    whose ID is the string "0". *)
Lemma falsy_identity_value_skipped_witness :
  let zero : record := {[ "ID" := VNumber 0 ]} in
  let no : record := {[ "ID" := VBoolean false ]} in
  [zero; zero] !! 1%nat = Some zero
  /\ ["ID"] !! 0%nat = Some "ID"
  /\ toBoolean (getProp zero "ID") = false
  /\ filter (fun e => cellAddress e
                      = getCellAddress (Z.of_nat 1 + 1) (Z.of_nat 0))
       (checkUniqueConstraints [zero; zero] ["ID"]) = []
  /\ trim (toString (getProp zero "ID")) = "0"
  /\ checkUniqueConstraints [zero; zero] ["ID"] = []
  /\ checkUniqueConstraints [no; no] ["ID"] = []
  /\ checkUniqueConstraints
       [{[ "ID" := VString "0" ]}; {[ "ID" := VString "0" ]}] ["ID"]
     = [mkError "A3" 3 "ID" "Duplicate value found (also in row 2)" unique].
Proof.
  intros zero no.
  assert (H0 : [zero; zero] !! 1%nat = Some zero) by reflexivity.
  assert (H1 : ["ID"] !! 0%nat = Some "ID") by reflexivity.
  assert (H2 : toBoolean (getProp zero "ID") = false) by reflexivity.
  split; [exact H0|]. split; [exact H1|]. split; [exact H2|].
  split.
  - exact (proj1 (proj2 (falsy_identity_value_skipped [zero; zero] ["ID"] 1 0
                           zero "ID" H0 H1 H2))).
  - repeat split; vm_compute; reflexivity.
Defined.

(** ** Further properties of the code *)

Module More.
Import JS JSFacts ExcelProcessor Spec SpecMore ExcelFacts Address Uniqueness
  Sorting Passes.

(** *** Rows as objects *)

Lemma lastIndex_Some (h : string) (l : list string) (i : nat) :
  lastIndex h l = Some i
  <-> l !! i = Some h /\ forall j, (i < j)%nat -> l !! j <> Some h.
Proof.
  revert i. induction l as [|x l IH]; intros i; simpl.
  - split; [done|]. by intros [? _].
  - destruct (lastIndex h l) as [j|] eqn:E.
    + destruct (proj1 (IH j) eq_refl) as [Hj Hlast]. split.
      * intros [= <-]. split; [done|]. intros [|j'] Hlt; [lia|].
        apply Hlast. lia.
      * intros [Hi Hmax]. destruct i as [|i].
        -- exfalso. apply (Hmax (S j)); [lia|done].
        -- f_equal. simpl in Hi.
           destruct (Nat.lt_trichotomy i j) as [Hlt|[->|Hgt]]; [|done|].
           ++ exfalso. apply (Hmax (S j)); [lia|done].
           ++ exfalso. by apply (Hlast i).
    + assert (Hno : forall j, l !! j <> Some h).
      { intros j Hj. assert (lastIndex h l <> None); [|done].
        clear IH E. revert j Hj. induction l as [|y l IHl]; intros j Hj; [done|].
        simpl. destruct j as [|j]; simpl in Hj.
        - injection Hj as ->. destruct (lastIndex h l); [done|].
          by rewrite decide_True.
        - specialize (IHl j Hj). by destruct (lastIndex h l). }
      destruct (decide (x = h)) as [->|Hne]; split.
      * intros [= <-]. split; [done|]. intros [|j] Hlt; [lia|]. apply Hno.
      * intros [Hi _]. destruct i as [|i]; [done|]. by apply Hno in Hi.
      * done.
      * intros [Hi _]. destruct i as [|i]; simpl in Hi; [congruence|].
        by apply Hno in Hi.
Qed.

Lemma lastIndex_None (h : string) (l : list string) :
  lastIndex h l = None <-> h ∉ l.
Proof.
  induction l as [|x l IH]; simpl.
  - split; [intros _; apply not_elem_of_nil|done].
  - rewrite not_elem_of_cons. destruct (lastIndex h l).
    + split; [done|]. intros [_ H]. by apply IH in H.
    + destruct (decide (x = h)) as [->|Hne].
      * split; [done|]. by intros [? _].
      * split; [|done]. intros _. split; [congruence|by apply IH].
Qed.

Lemma toObject_from_lookup (row : list value) (l : list string) (i0 : nat)
    (obj : record) (h : string) :
  forEachFrom i0
    (fun (obj : record) header index => <[header := nth index row VUndefined]> obj)
    l obj !! h
  = match lastIndex h l with
    | Some j => Some (nth (i0 + j) row VUndefined)
    | None => obj !! h
    end.
Proof.
  revert i0 obj. induction l as [|x l IH]; intros i0 obj; simpl; [done|].
  rewrite IH. destruct (lastIndex h l) as [j|].
  - do 2 f_equal. lia.
  - destruct (decide (x = h)) as [->|Hne].
    + by rewrite lookup_insert_eq, Nat.add_0_r.
    + by rewrite lookup_insert_ne.
Qed.

Lemma toObject_lookup (headers : list string) (row : list value) (h : string) :
  toObject headers row !! h
  = (fun j => nth j row VUndefined) <$> lastIndex h headers.
Proof.
  unfold toObject, forEach. rewrite toObject_from_lookup, lookup_empty.
  by destruct (lastIndex h headers).
Qed.

(** *** When the two passes find nothing *)

Lemma concat_imap_nil_inv {A E : Type} (g : nat -> A -> list E) (l : list A)
    (i : nat) (x : A) :
  List.concat (imap g l) = [] -> l !! i = Some x -> g i x = [].
Proof.
  intros Hnil Hi. destruct (g i x) as [|e es] eqn:Eg; [done|].
  assert (He : e ∈ List.concat (imap g l)).
  { apply elem_of_concat_imap. exists i, x. split; [done|]. rewrite Eg. left. }
  rewrite Hnil in He. by apply elem_of_nil in He.
Qed.

Lemma forallb_lookup_iff {A : Type} (f : A -> bool) (l : list A) :
  forallb f l = true <-> forall i x, l !! i = Some x -> f x = true.
Proof.
  split; [intros H i x; by apply forallb_lookup|].
  induction l as [|y l IH]; intros H; simpl; [done|].
  rewrite (H 0%nat y) by done. simpl. apply IH.
  intros i x Hi. by apply (H (S i)).
Qed.

Lemma cellErrors_nil_iff dateIsValid rowData rowIndex header colIndex :
  cellErrors dateIsValid rowData rowIndex header colIndex = []
  <-> cellValid dateIsValid rowData header = true.
Proof.
  split; [|apply cellValid_no_errors].
  unfold cellErrors, cellValid. destruct (isBlank _); [done|].
  cbv beta iota zeta delta [cellRules map List.concat forallb ruleErrors].
  destruct (ruleApplies email header), (rulePasses dateIsValid email _),
    (ruleApplies phone header), (rulePasses dateIsValid phone _),
    (ruleApplies numeric header), (rulePasses dateIsValid numeric _),
    (ruleApplies date header), (rulePasses dateIsValid date _); simpl; done.
Qed.

Lemma distinctNonEmpty_iff (keys : list string) :
  distinctNonEmpty keys = true
  <-> forall o j k, (o < j)%nat -> keys !! o = Some k -> keys !! j = Some k ->
        k = "".
Proof.
  split; [intros H o j k; by apply distinctNonEmpty_lookup|].
  induction keys as [|x keys IH]; intros H; simpl; [done|].
  apply andb_true_iff. split.
  - destruct (isEmpty x) eqn:Ex; [done|]. simpl. apply negb_true_iff.
    destruct (existsb (String.eqb x) keys) eqn:Eb; [|done].
    apply existsb_exists in Eb as (y & Hy & Heq%String.eqb_eq). subst y.
    apply list_elem_of_In, list_elem_of_lookup in Hy as [j Hj].
    apply isEmpty_false in Ex. exfalso. apply Ex.
    apply (H 0%nat (S j) x); [lia|done..].
  - apply IH. intros o j k Hoj Ho Hj. apply (H (S o) (S j) k); [lia|done..].
Qed.

Lemma distinctNonEmpty_NoDup (keys : list string) :
  distinctNonEmpty keys = true <-> NoDup (filter (fun k => k <> "") keys).
Proof.
  induction keys as [|x keys IH]; simpl; [split; [constructor|done]|].
  rewrite andb_true_iff, IH, filter_cons. destruct (decide (x <> "")) as [Hx|Hx].
  - rewrite NoDup_cons, list_elem_of_filter.
    apply isEmpty_false in Hx as Hx'. rewrite Hx'. simpl.
    rewrite negb_true_iff.
    assert (existsb (String.eqb x) keys = false <-> x ∉ keys) as ->.
    { rewrite <- not_true_iff_false, existsb_exists. split.
      - intros Hno Hin. apply Hno. exists x. split; [by apply list_elem_of_In|].
        apply String.eqb_refl.
      - intros Hno (y & Hy & Heq%String.eqb_eq). subst y.
        by apply Hno, list_elem_of_In. }
    split; [intros [Hno ?]; split; [by intros [_ ?]|done]|].
    intros [Hno ?]. split; [|done]. intros Hin. by apply Hno.
  - assert (x = "") as -> by (by destruct (decide (x = "")); [|exfalso; auto]).
    simpl. split; [by intros [_ ?]|done].
Qed.

Lemma columnDuplicates_nil_iff (data : list record) (header : string)
    (colIndex : nat) :
  columnDuplicates data header colIndex = []
  <-> implb (ruleApplies unique header)
        (distinctNonEmpty (map (uniqueKey header) data)) = true.
Proof.
  unfold columnDuplicates. destruct (ruleApplies unique header); [|done].
  simpl. rewrite distinctNonEmpty_iff. split.
  - intros Hnil o j k Hoj Ho Hj.
    destruct (decide (k = "")) as [|Hk]; [done|]. exfalso.
    pose proof (concat_imap_nil_inv _ _ j k Hnil Hj) as Hd.
    unfold duplicateAt in Hd. apply isEmpty_false in Hk. rewrite Hk in Hd.
    destruct (firstIndex k (take j (map (uniqueKey header) data))) eqn:E;
      [done|].
    apply firstIndex_None in E. apply E.
    apply list_elem_of_lookup. exists o. by rewrite lookup_take_lt.
  - intros Hdist. apply concat_imap_nil. intros j k Hj. unfold duplicateAt.
    destruct (isEmpty k) eqn:Ek; [done|].
    destruct (firstIndex k (take j (map (uniqueKey header) data))) as [o|] eqn:E;
      [|done].
    apply firstIndex_Some in E as [Ho _]. apply lookup_take_Some in Ho as [Ho Hoj].
    apply isEmpty_false in Ek. exfalso. apply Ek. by apply (Hdist o j k).
Qed.

Lemma validate_nil_iff dateIsValid (objectData : list record)
    (headers : list string) :
  validate dateIsValid objectData headers = []
  <-> allCellsValid dateIsValid objectData headers = true
      /\ identityKeysDistinct objectData headers = true.
Proof.
  rewrite validate_eq, checkUniqueConstraints_eq.
  unfold allCellsValid, identityKeysDistinct.
  rewrite !forallb_lookup_iff. split.
  - intros [Hrows Huniq]%app_eq_nil. split.
    + intros i rowData Hi. apply forallb_lookup_iff. intros c h Hc.
      pose proof (concat_imap_nil_inv _ _ i rowData Hrows Hi) as Hrow.
      cbv beta in Hrow. rewrite validateRow_eq in Hrow.
      apply (cellErrors_nil_iff dateIsValid rowData i h c).
      by apply (concat_imap_nil_inv _ _ c h Hrow).
    + intros c h Hc. apply (columnDuplicates_nil_iff objectData h c).
      by apply (concat_imap_nil_inv _ _ c h Huniq).
  - intros [Hcells Hkeys]. rewrite !concat_imap_nil; [done|..].
    + intros c h Hc. apply columnDuplicates_nil_iff. by apply (Hkeys c).
    + intros i rowData Hi. rewrite validateRow_eq. apply concat_imap_nil.
      intros c h Hc. apply cellErrors_nil_iff.
      specialize (Hcells i rowData Hi). by apply (forallb_lookup _ _ c h) in Hcells.
Qed.

Lemma forallb_Permutation {A : Type} (f : A -> bool) (l l' : list A) :
  Permutation l l' -> forallb f l = forallb f l'.
Proof.
  induction 1 as [|x l l' _ IH|x y l|l l' l'' _ IH1 _ IH2]; simpl.
  - done.
  - by rewrite IH.
  - by rewrite !andb_assoc, (andb_comm (f y)).
  - by rewrite IH1.
Qed.

Lemma forallb_pointwise {A : Type} (f g : A -> bool) (l : list A) :
  (forall x, f x = g x) -> forallb f l = forallb g l.
Proof. intros H. induction l as [|x l IH]; simpl; [done|]. by rewrite H, IH. Qed.

Lemma distinctNonEmpty_Permutation (l l' : list string) :
  Permutation l l' -> distinctNonEmpty l = distinctNonEmpty l'.
Proof.
  intros Hp. apply eq_true_iff_eq. rewrite !distinctNonEmpty_NoDup.
  by rewrite Hp.
Qed.

Lemma validate_nil_Permutation dateIsValid (data data' : list record)
    (headers : list string) :
  Permutation data data' ->
  validate dateIsValid data headers = [] ->
  validate dateIsValid data' headers = [].
Proof.
  intros Hp. rewrite !validate_nil_iff. unfold allCellsValid, identityKeysDistinct.
  rewrite (forallb_Permutation _ data data' Hp). intros [H1 H2]. split; [done|].
  rewrite <- H2. apply forallb_pointwise. intros h. f_equal.
  apply distinctNonEmpty_Permutation. by rewrite Hp.
Qed.

(** *** What an error says about its cell *)

Lemma cellErrors_elem_rule dateIsValid rowData rowIndex header colIndex e :
  e ∈ cellErrors dateIsValid rowData rowIndex header colIndex ->
  exists k, e = cellError rowIndex colIndex header k
            /\ k <> unique /\ ruleApplies k header = true.
Proof.
  unfold cellErrors. destruct (isBlank _).
  - intros ->%list_elem_of_singleton. by exists blank.
  - unfold cellRules, ruleErrors.
    cbv beta iota zeta delta [map List.concat]. rewrite !elem_of_app.
    intros [H|[H|[H|[H|H]]]];
      match type of H with
      | _ ∈ (if ruleApplies ?k header && ?v then _ else _) =>
          destruct (ruleApplies k header) eqn:Ea, v; simpl in H;
          try (by apply elem_of_nil in H);
          apply list_elem_of_singleton in H as ->; by exists k
      | _ => by apply elem_of_nil in H
      end.
Qed.

(** *** [Number] on the numerals [String] prints *)

Ltac ascii_cases c := destruct c as [[] [] [] [] [] [] [] []].

Lemma isDigit_not_space (c : ascii) :
  isDigit c = true -> isWhiteSpace c = false.
Proof. ascii_cases c; vm_compute; congruence. Qed.

Lemma trimEnd_no_space (t : string) :
  allChars (fun c => negb (isWhiteSpace c)) t = true -> trimEnd t = t.
Proof.
  induction t as [|c t IH]; simpl; [done|].
  intros [Hc Ht]%andb_true_iff. apply negb_true_iff in Hc.
  by rewrite Hc, IH.
Qed.

Lemma trim_no_space (t : string) :
  allChars (fun c => negb (isWhiteSpace c)) t = true -> trim t = t.
Proof.
  intros Ht. unfold trim.
  assert (trimStart t = t) as ->; [|by apply trimEnd_no_space].
  destruct t as [|c t]; simpl in *; [done|].
  apply andb_true_iff in Ht as [Hc _]. apply negb_true_iff in Hc. by rewrite Hc.
Qed.

Lemma digits_no_space (t : string) :
  allChars isDigit t = true ->
  allChars (fun c => negb (isWhiteSpace c)) t = true.
Proof.
  induction t as [|c t IH]; simpl; [done|].
  intros [Hc Ht]%andb_true_iff. by rewrite (isDigit_not_space c Hc), IH.
Qed.

Lemma spanDigits_all (t : string) :
  allChars isDigit t = true -> spanDigits t = (t, "").
Proof.
  induction t as [|c t IH]; simpl; [done|].
  intros [Hc Ht]%andb_true_iff. by rewrite Hc, IH.
Qed.

Lemma digitValue_pretty_N_char (y : N) :
  (y < 10)%N -> digitValue (pretty_N_char y) = Some (Z.of_N y).
Proof.
  intros Hy.
  assert (y = 0 \/ y = 1 \/ y = 2 \/ y = 3 \/ y = 4 \/ y = 5 \/ y = 6 \/ y = 7
          \/ y = 8 \/ y = 9)%N as H by lia.
  repeat (destruct H as [->|H]; [reflexivity|]). by subst.
Qed.

Lemma isDigit_pretty_N_char (y : N) : isDigit (pretty_N_char y) = true.
Proof. unfold pretty_N_char. by repeat case_match. Qed.

Lemma allDigits_pretty_N_go (x : N) (s : string) :
  allChars isDigit s = true -> allChars isDigit (pretty_N_go x s) = true.
Proof.
  revert s. induction (N.lt_wf_0 x) as [x _ IH]; intros s Hs.
  destruct (decide (x = 0%N)) as [->|Hx]; [by rewrite pretty_N_go_0|].
  rewrite pretty_N_go_step by lia. apply IH; [apply N.div_lt; lia|].
  simpl. by rewrite isDigit_pretty_N_char.
Qed.

(** Reading back the digits [pretty] prints gives the number. *)
Lemma radixValue_pretty_N_go (x : N) :
  exists k, forall acc s,
    radixValue 10 acc (pretty_N_go x s) = radixValue 10 (acc * k + Z.of_N x) s.
Proof.
  induction (N.lt_wf_0 x) as [x _ IH].
  destruct (decide (x = 0%N)) as [->|Hx].
  - exists 1. intros acc s. rewrite pretty_N_go_0. f_equal. lia.
  - destruct (IH (N.div x 10)) as [k Hk]; [apply N.div_lt; lia|].
    exists (k * 10). intros acc s. rewrite pretty_N_go_step by lia.
    rewrite Hk. simpl.
    rewrite digitValue_pretty_N_char by (apply N.mod_lt; lia).
    assert ((Z.of_N (N.modulo x 10) <? 10) = true) as ->.
    { apply Z.ltb_lt. pose proof (N.mod_lt x 10). lia. }
    f_equal. rewrite (N.div_mod x 10) at 3 by lia. lia.
Qed.

Lemma pretty_positive_digits (p : positive) :
  allChars isDigit (pretty (Z.pos p)) = true
  /\ pretty (Z.pos p) <> ""
  /\ radixValue 10 0 (pretty (Z.pos p)) = Some (Z.pos p).
Proof.
  change (pretty (Z.pos p)) with (pretty (N.pos p)).
  unfold pretty at 1 2 3, pretty_N. rewrite decide_False by done.
  split; [by apply allDigits_pretty_N_go|]. split.
  - pose proof (pretty_N_head (N.pos p)) as H.
    unfold pretty, pretty_N in H. rewrite decide_False in H by done.
    by destruct (pretty_N_go (N.pos p) "").
  - destruct (radixValue_pretty_N_go (N.pos p)) as [k Hk]. rewrite Hk. simpl.
    f_equal.
Qed.

Lemma unsignedDecimal_digits (t : string) (x : Z) :
  allChars isDigit t = true -> t <> "" ->
  radixValue 10 0 t = Some x -> x < overflowBound ->
  unsignedDecimal t = IsFinite.
Proof.
  intros Hd Hne Hx Hlt. unfold unsignedDecimal.
  destruct (String.eqb_spec t "Infinity") as [Heq|_];
    [subst t; vm_compute in Hd; discriminate|].
  rewrite spanDigits_all by done.
  apply isEmpty_false in Hne. rewrite Hne.
  cbn -[overflowBound classify radixValue].
  rewrite append_empty_r, Hx. unfold classify.
  change (0 - 0) with 0. change (0 <=? 0) with true. cbv iota.
  rewrite Z.pow_0_r, Z.mul_1_r.
  destruct (Z.leb_spec overflowBound x); [lia|done].
Qed.

Lemma nonDecimal_digits (t : string) :
  allChars isDigit t = true -> nonDecimal t = None.
Proof.
  destruct t as [|a [|c ds]]; [done|..]; intros Hd.
  - ascii_cases a; reflexivity.
  - simpl in Hd. apply andb_true_iff in Hd as [_ [Hc _]%andb_true_iff].
    assert (Hr : (if Ascii.eqb c "x" || Ascii.eqb c "X" then Some 16
                  else if Ascii.eqb c "o" || Ascii.eqb c "O" then Some 8
                  else if Ascii.eqb c "b" || Ascii.eqb c "B" then Some 2
                  else None) = None).
    { clear -Hc. ascii_cases c; vm_compute in Hc; try discriminate; reflexivity. }
    ascii_cases a; try reflexivity. simpl. by rewrite Hr.
Qed.

Lemma Number_digits (t : string) :
  allChars isDigit t = true -> t <> "" -> Number t = unsignedDecimal t.
Proof.
  intros Hd Hne. unfold Number.
  rewrite trim_no_space by by apply digits_no_space.
  apply isEmpty_false in Hne. rewrite Hne, nonDecimal_digits by done.
  destruct t as [|a t]; [done|]. simpl in Hd.
  apply andb_true_iff in Hd as [Ha _].
  ascii_cases a; try reflexivity; vm_compute in Ha; discriminate.
Qed.

Lemma Number_minus_digits (t : string) :
  allChars isDigit t = true -> Number (String "-" t) = unsignedDecimal t.
Proof.
  intros Hd. unfold Number.
  rewrite trim_no_space by (simpl; by apply digits_no_space). reflexivity.
Qed.

(** *** What an accepted upload hands back *)

Lemma lastIndex_NoDup (headers : list string) (i : nat) (h : string) :
  NoDup headers -> headers !! i = Some h -> lastIndex h headers = Some i.
Proof.
  intros Hnd Hi. apply lastIndex_Some. split; [done|].
  intros j Hij Hj. pose proof (NoDup_lookup _ _ _ _ Hnd Hi Hj). lia.
Qed.

Lemma row_cells_NoDup (headers : list string) (row : list value) :
  NoDup headers -> (List.length headers <= List.length row)%nat ->
  map (getProp (toObject headers row)) headers = take (List.length headers) row.
Proof.
  intros Hnd Hlen. apply list_eq. intros i.
  rewrite list_lookup_fmap.
  destruct (headers !! i) as [h|] eqn:Hi; simpl.
  - unfold getProp. rewrite toObject_lookup, (lastIndex_NoDup _ i) by done.
    simpl. apply lookup_lt_Some in Hi as Hlt.
    rewrite lookup_take_lt by done. rewrite nth_lookup.
    destruct (row !! i) eqn:Hr; [done|]. apply lookup_ge_None in Hr. lia.
  - apply lookup_ge_None in Hi. symmetry. apply lookup_ge_None.
    rewrite length_take. lia.
Qed.

(** A row that lacks the cell of the last header has a blank cell. *)
Lemma short_row_invalid dateIsValid (headers : list string) (row : list value) :
  (List.length row < List.length headers)%nat ->
  forallb (cellValid dateIsValid (toObject headers row)) headers = false.
Proof.
  intros Hlen. apply not_true_iff_false. intros Hv.
  destruct (lookup_lt_is_Some_2 headers (List.length headers - 1))
    as [h Hh]; [lia|].
  pose proof (forallb_lookup _ _ _ _ Hv Hh) as Hcell.
  unfold cellValid, getProp in Hcell. rewrite toObject_lookup in Hcell.
  rewrite (proj2 (lastIndex_Some h headers (List.length headers - 1))) in Hcell.
  - simpl in Hcell. rewrite nth_overflow in Hcell by lia. done.
  - split; [done|]. intros j Hj Hjh. apply lookup_lt_Some in Hjh. lia.
Qed.

Lemma toObject_row_cells (headers : list string) (row : list value) :
  toObject headers (map (getProp (toObject headers row)) headers)
  = toObject headers row.
Proof.
  apply map_eq. intros h. rewrite !toObject_lookup.
  destruct (lastIndex h headers) as [j|] eqn:E; [|done]. simpl. f_equal.
  pose proof (proj1 (lastIndex_Some h headers j) E) as [Hj _].
  rewrite nth_lookup, list_lookup_fmap, Hj. simpl.
  unfold getProp. by rewrite toObject_lookup, E.
Qed.

Lemma sort_of_sorted {A : Type} (cmp : A -> A -> Z) (l : list A) :
  StronglySorted (fun a b => cmp a b <= 0) l -> sort cmp l = l.
Proof.
  induction 1 as [|x l Hl IH Hx]; simpl; [done|]. rewrite IH.
  destruct l as [|y l]; simpl; [done|].
  apply Forall_cons in Hx as [Hxy _].
  by destruct (Z.leb_spec (cmp x y) 0); [|lia].
Qed.

(** What [processFile] returns when it returns a dataset. *)
Lemma processFile_data dateIsValid localeCompare (headers : list string)
    (dataRows : list (list value)) (ds : SheetData) :
  data (processFile dateIsValid localeCompare headers dataRows) = Some ds ->
  let objectData := map (toObject headers) dataRows in
  let sorted := sort (compareRows localeCompare (nameColumn headers)) objectData in
  validate dateIsValid objectData headers = []
  /\ ds = mkSheetData headers
            (map (fun rowData => map (getProp rowData) headers) sorted) sorted
  /\ processFile dateIsValid localeCompare headers dataRows
     = mkResult (Some ds) [].
Proof.
  unfold processFile.
  destruct (validate dateIsValid (map (toObject headers) dataRows) headers)
    as [|e es] eqn:E; simpl; [|done].
  intros [= <-]. done.
Qed.

(** *** Merging the results of several queries *)

Section Merge.

Context {Item : Type}.
Variable fuseSearch : string -> list (@FuzzySearch.FuseResult Item).
Variable stringify : Item -> string.

Let entry (x : Item) : string * Item := (stringify x, x).

Lemma mapHas_elem (m : list (string * Item)) (k : string) :
  FuzzySearch.mapHas m k = true <-> k ∈ map fst m.
Proof.
  unfold FuzzySearch.mapHas. rewrite existsb_exists, list_elem_of_fmap. split.
  - intros (p & Hp & Hk%String.eqb_eq). exists p. split; [done|].
    by apply list_elem_of_In.
  - intros (p & -> & Hp). exists p. split; [by apply list_elem_of_In|].
    apply String.eqb_refl.
Qed.

Lemma keepFirst_elem (l : list Item) (y : Item) :
  y ∈ keepFirst stringify l -> y ∈ l.
Proof.
  revert y. induction l as [|x l IH]; intros y; simpl; [done|].
  intros [->|[_ Hy]%list_elem_of_filter]%elem_of_cons; [left|right; auto].
Qed.

Lemma keepFirst_represents (l : list Item) (x : Item) :
  x ∈ l -> exists y, y ∈ keepFirst stringify l /\ stringify y = stringify x.
Proof.
  induction l as [|x0 l IH]; simpl; [by intros ?%elem_of_nil|].
  intros [->|Hx]%elem_of_cons.
  - exists x0. split; [left|done].
  - destruct (IH Hx) as (y & Hy & Hk).
    destruct (decide (stringify y = stringify x0)) as [Heq|Hne].
    + exists x0. split; [left|congruence].
    + exists y. split; [|done]. right. by apply list_elem_of_filter.
Qed.

Lemma keepFirst_NoDup (l : list Item) : NoDup (map stringify (keepFirst stringify l)).
Proof.
  induction l as [|x l IH]; simpl; [constructor|].
  apply NoDup_cons. split.
  - intros (y & Hk & [Hne _]%list_elem_of_filter)%list_elem_of_fmap. congruence.
  - eapply sublist_NoDup; [exact IH|]. apply fmap_sublist, sublist_filter.
Qed.

Lemma forEachFrom_addResult (l : list Item) (i : nat) (m : list (string * Item)) :
  forEachFrom i (FuzzySearch.addResult stringify) l m
  = m ++ map entry (filter (fun x => stringify x ∉ map fst m)
                      (keepFirst stringify l)).
Proof.
  revert i m. induction l as [|x l IH]; intros i m; simpl.
  - by rewrite app_nil_r.
  - rewrite IH. unfold FuzzySearch.addResult.
    rewrite filter_cons.
    destruct (FuzzySearch.mapHas m (stringify x)) eqn:Eh; simpl.
    + apply mapHas_elem in Eh. rewrite decide_False by auto. f_equal. f_equal.
      rewrite list_filter_filter. apply list_filter_iff. intros y.
      split; [|by intros [? _]]. intros Hy. split; [done|]. congruence.
    + assert (Hx : stringify x ∉ map fst m).
      { intros Hin%mapHas_elem. congruence. }
      rewrite decide_True by done. rewrite <- app_assoc. simpl. do 3 f_equal.
      rewrite list_filter_filter. apply list_filter_iff. intros y.
      rewrite map_app. simpl. rewrite not_elem_of_app, not_elem_of_cons.
      split; [intros (? & ? & _)|intros [? ?]; split; [|split]]; try done.
      apply not_elem_of_nil.
Qed.

Lemma forEachFrom_app {A S : Type} (f : S -> A -> nat -> S) (l1 l2 : list A)
    (i : nat) (s : S) :
  forEachFrom i f (l1 ++ l2) s
  = forEachFrom (i + List.length l1) f l2 (forEachFrom i f l1 s).
Proof.
  revert i s. induction l1 as [|x l1 IH]; intros i s; simpl.
  - by rewrite Nat.add_0_r.
  - rewrite IH. f_equal. lia.
Qed.

Lemma forEachFrom_queries (queries : list string) (i : nat)
    (m : list (string * Item)) :
  forEachFrom i
    (fun allResults query (_ : nat) =>
       forEach (FuzzySearch.addResult stringify)
         (FuzzySearch.search fuseSearch query) allResults)
    queries m
  = forEachFrom 0 (FuzzySearch.addResult stringify)
      (List.concat (map (FuzzySearch.search fuseSearch) queries)) m.
Proof.
  revert i m. induction queries as [|q queries IH]; intros i m; simpl; [done|].
  rewrite IH, forEachFrom_app. unfold forEach.
  by rewrite !forEachFrom_addResult.
Qed.

Lemma searchMultiple_keepFirst (queries : list string) :
  FuzzySearch.searchMultiple fuseSearch stringify queries
  = keepFirst stringify
      (List.concat (map (FuzzySearch.search fuseSearch) queries)).
Proof.
  unfold FuzzySearch.searchMultiple, forEach.
  rewrite forEachFrom_queries, forEachFrom_addResult. simpl.
  rewrite map_map. simpl. rewrite map_id.
  apply filter_all. intros x _. apply not_elem_of_nil.
Qed.

End Merge.

End More.

Import JS JSFacts ExcelProcessor Spec SpecMore ExcelFacts Address Uniqueness
  Sorting Passes More.

(** X1. [validateEmail] accepts exactly the strings of the form [a@b.c] in
    which [a], [b] and [c] are non-empty and hold neither white space nor
    [@]. *)
Theorem email_accepted_iff (s : string) :
  validateEmail s = true
  <-> exists a b c,
        s = a +:+ "@" +:+ b +:+ "." +:+ c
        /\ (a <> "" /\ allChars notSpaceAt a = true)
        /\ (b <> "" /\ allChars notSpaceAt b = true)
        /\ (c <> "" /\ allChars notSpaceAt c = true).
Proof. apply validateEmail_spec. Qed.

(** X2. [validatePhone] accepts exactly the strings that hold ten decimal
    digits, whatever other characters stand between them. *)
Theorem phone_accepted_iff (phone : string) :
  validatePhone phone = true
  <-> String.length (removeNonDigits phone) = 10%nat.
Proof. apply validatePhone_spec. Qed.

(** X3. Two cells have the same address only if they are the same cell:
    [getCellAddress] is injective in the row and the column. *)
Theorem cell_address_injective (r1 r2 : Z) (c1 c2 : nat) :
  getCellAddress r1 (Z.of_nat c1) = getCellAddress r2 (Z.of_nat c2)
  <-> r1 = r2 /\ c1 = c2.
Proof.
  split; [apply getCellAddress_inj|]. by intros [-> ->].
Qed.

(** X4. The object a row is converted to holds, under a header name other
    than [__proto__], the cell at the position of the last header of that
    name, and [undefined] when the row is too short to have that cell.
    (Under [__proto__] the assignment stores no property and the read gives
    [Object.prototype], which is no cell of the row.) *)
Theorem row_object_property (headers : list string) (row : list value)
    (i : nat) (h : string) :
  h <> "__proto__" ->
  headers !! i = Some h ->
  (forall j, (i < j)%nat -> headers !! j <> Some h) ->
  getProp (toObject headers row) h = nth i row VUndefined
  /\ ((List.length row <= i)%nat -> getProp (toObject headers row) h = VUndefined).
Proof.
  intros _ Hi Hlast.
  assert (Hget : getProp (toObject headers row) h = nth i row VUndefined).
  { unfold getProp. rewrite toObject_lookup.
    by rewrite (proj2 (lastIndex_Some h headers i)). }
  split; [done|]. intros Hlen. rewrite Hget. by apply nth_overflow.
Qed.

(** A header that occurs twice and a row with two cells only. *)
Lemma row_object_property_witness :
  let headers := ["ID"; "Name"; "ID"; "Email"] in
  let row := [VNumber 1; VString "Ann"] in
  "ID" <> "__proto__"
  /\ headers !! 2%nat = Some "ID"
  /\ (forall j, (2 < j)%nat -> headers !! j <> Some "ID")
  /\ getProp (toObject headers row) "ID" = VUndefined
  /\ getProp (toObject headers row) "Name" = VString "Ann".
Proof.
  intros headers row.
  assert (H0 : "ID" <> "__proto__") by discriminate.
  assert (H1 : headers !! 2%nat = Some "ID") by reflexivity.
  assert (H2 : forall j, (2 < j)%nat -> headers !! j <> Some "ID").
  { intros [|[|[|[|j]]]] Hj; try lia; discriminate. }
  split; [exact H0|]. split; [exact H1|]. split; [exact H2|]. split.
  - exact (proj1 (row_object_property headers row 2 "ID" H0 H1 H2)).
  - reflexivity.
Defined.

(** X5. Validation returns no error exactly when every cell is valid (not
    blank, and passing every rule its column name selects) and no identity
    column holds the same non-empty key in two rows. *)
Theorem accepted_iff (dateIsValid : string -> bool) (objectData : list record)
    (headers : list string) :
  validate dateIsValid objectData headers = []
  <-> allCellsValid dateIsValid objectData headers = true
      /\ identityKeysDistinct objectData headers = true.
Proof. apply validate_nil_iff. Qed.

(** X6. Whether an upload is accepted does not depend on the order of its
    rows. *)
Theorem acceptance_ignores_row_order (dateIsValid : string -> bool)
    (data data' : list record) (headers : list string) :
  Permutation data data' ->
  (validate dateIsValid data headers = []
   <-> validate dateIsValid data' headers = []).
Proof.
  intros Hp. split; apply validate_nil_Permutation; [done|by symmetry].
Qed.

(** Two valid rows, in either order. *)
Lemma acceptance_ignores_row_order_witness :
  let ann : record := {[ "Name" := VString "Ann"; "ID" := VNumber 1 ]} in
  let ben : record := {[ "Name" := VString "Ben"; "ID" := VNumber 2 ]} in
  Permutation [ann; ben] [ben; ann]
  /\ (validate isoDateOnly [ann; ben] ["Name"; "ID"] = []
      <-> validate isoDateOnly [ben; ann] ["Name"; "ID"] = []).
Proof.
  intros ann ben.
  assert (Hp : Permutation [ann; ben] [ben; ann]) by apply perm_swap.
  split; [exact Hp|].
  exact (acceptance_ignores_row_order isoDateOnly [ann; ben] [ben; ann]
           ["Name"; "ID"] Hp).
Defined.

(** X7. A sheet with a header row and no data row is accepted: no error,
    and a dataset without rows, whatever the headers. *)
Theorem header_only_sheet_accepted (dateIsValid : string -> bool)
    (localeCompare : string -> string -> Z) (headers : list string) :
  processFile dateIsValid localeCompare headers []
  = mkResult (Some (mkSheetData headers [] [])) [].
Proof.
  unfold processFile. simpl.
  assert (validate dateIsValid [] headers = []) as ->; [|done].
  rewrite validate_eq, checkUniqueConstraints_eq. simpl.
  apply concat_imap_nil. intros c h _. unfold columnDuplicates.
  by destruct (ruleApplies unique h).
Qed.

(** X8. Adding rows below a sheet never removes an error: every error of
    the sheet is an error of the longer sheet, at the same address. *)
Theorem errors_survive_appended_rows (dateIsValid : string -> bool)
    (data more : list record) (headers : list string) (e : ValidationError) :
  e ∈ validate dateIsValid data headers ->
  e ∈ validate dateIsValid (data ++ more) headers.
Proof.
  rewrite !validate_eq, !elem_of_app.
  intros [(i & rowData & Hi & He)%elem_of_concat_imap|He].
  - left. apply elem_of_concat_imap. exists i, rowData.
    split; [by apply lookup_app_l_Some|done].
  - right. apply checkUniqueConstraints_elem in He
      as (c & h & j & o & k & Hc & Hid & Hoj & Hk & Hj & Ho & Hmin & ->).
    apply checkUniqueConstraints_elem. exists c, h, j, o, k.
    rewrite fmap_app. repeat split; try done.
    + by apply lookup_app_l_Some.
    + by apply lookup_app_l_Some.
    + intros o' Ho'. rewrite lookup_app_l; [by apply Hmin|].
      apply lookup_lt_Some in Ho. lia.
Qed.

(** A sheet with a repeated ID, and the same sheet with one more row. *)
Lemma errors_survive_appended_rows_witness :
  let one : record := {[ "ID" := VNumber 1 ]} in
  let two : record := {[ "ID" := VNumber 2 ]} in
  let e := mkError "A3" 3 "ID" "Duplicate value found (also in row 2)" unique in
  e ∈ validate isoDateOnly [one; one] ["ID"]
  /\ e ∈ validate isoDateOnly ([one; one] ++ [two]) ["ID"].
Proof.
  intros one two e.
  assert (H : e ∈ validate isoDateOnly [one; one] ["ID"]).
  { vm_compute. left. }
  split; [exact H|].
  exact (errors_survive_appended_rows isoDateOnly [one; one] [two] ["ID"] e H).
Defined.

(** X9. Every error names one of the headers as its column and its kind is
    one the name of that column selects ([blank] applies to every column).
    The message of an error of another kind than [unique] is the fixed
    message of its kind.  The message of a [unique] error is "Duplicate
    value found (also in row N)", and N is the display row of the first row
    of the sheet that holds the same non-empty key in that column, a row
    above the error's own. *)
Theorem error_kind_matches_column (dateIsValid : string -> bool)
    (objectData : list record) (headers : list string) :
  Forall (fun e =>
            column e ∈ headers
            /\ ruleApplies (type e) (column e) = true
            /\ (type e <> unique -> message e = ruleMessage (type e))
            /\ (type e = unique ->
                let keys := uniqueKey (column e) <$> objectData in
                exists (j o : nat) (k : string),
                  row e = Z.of_nat j + 2
                  /\ (o < j)%nat /\ k <> ""
                  /\ keys !! j = Some k /\ keys !! o = Some k
                  /\ (forall o', (o' < o)%nat -> keys !! o' <> Some k)
                  /\ message e
                     = "Duplicate value found (also in row "
                         +:+ pretty (Z.of_nat o + 2) +:+ ")"))
    (validate dateIsValid objectData headers).
Proof.
  rewrite list.Forall_forall. intros e. rewrite validate_eq, elem_of_app.
  intros [(i & rowData & Hi & He)%elem_of_concat_imap|He].
  - rewrite validateRow_eq in He.
    apply elem_of_concat_imap in He as (c & h & Hc & He).
    apply cellErrors_elem_rule in He as (k & -> & Hk & Ha). simpl.
    split; [by eapply list_elem_of_lookup_2|]. split; [done|].
    split; [done|]. intros ->. by destruct Hk.
  - apply checkUniqueConstraints_elem in He
      as (c & h & j & o & k & Hc & Hid & Hoj & Hk & Hj & Ho & Hmin & ->). simpl.
    split; [by eapply list_elem_of_lookup_2|]. split; [done|].
    split; [done|]. intros _. exists j, o, k. repeat split; done.
Qed.

(** X10. A cell that holds white space only, but is not the empty string,
    is not reported as blank: among all errors of the two passes, those at
    its address are one error for each of the email, phone and date rules
    its column name selects, and nothing else; the numeric rule accepts it,
    and the uniqueness pass skips it. *)
Theorem whitespace_cell_errors (dateIsValid : string -> bool)
    (objectData : list record) (headers : list string) (rowIndex colIndex : nat)
    (rowData : record) (header s : string) :
  objectData !! rowIndex = Some rowData ->
  headers !! colIndex = Some header ->
  getProp rowData header = VString s ->
  s <> "" ->
  isWhiteSpaceOnly s = true ->
  filter (fun e => cellAddress e
                   = getCellAddress (Z.of_nat rowIndex + 1) (Z.of_nat colIndex))
    (validate dateIsValid objectData headers)
  = map (fun k => mkError
                    (getCellAddress (Z.of_nat rowIndex + 1) (Z.of_nat colIndex))
                    (Z.of_nat rowIndex + 2) header (ruleMessage k) k)
      (List.filter (fun k => ruleApplies k header) [email; phone; date]).
Proof.
  intros Hi Hc Hv Hs Hws.
  rewrite (validate_at_cell _ _ _ _ _ rowData header) by done.
  assert (Htrim : trim s = "") by by apply trim_empty_iff.
  assert (Hkey : uniqueKey header rowData = "").
  { unfold uniqueKey, orElse. rewrite Hv. simpl.
    destruct s; [done|]. simpl. exact Htrim. }
  unfold duplicateAt. rewrite Hkey. simpl isEmpty. cbv iota.
  assert ((if ruleApplies unique header then [] else [])
          = ([] : list ValidationError)) as -> by by destruct (ruleApplies _ _).
  rewrite app_nil_r. unfold cellErrors. rewrite Hv.
  assert (isBlank (VString s) = false) as -> by by destruct s.
  simpl toString. rewrite Htrim.
  cbv beta iota zeta delta [cellRules map List.concat ruleErrors List.filter].
  assert (rulePasses dateIsValid email "" = false) as -> by reflexivity.
  assert (rulePasses dateIsValid phone "" = false) as -> by reflexivity.
  assert (rulePasses dateIsValid numeric "" = true) as -> by reflexivity.
  assert (rulePasses dateIsValid date "" = false) as -> by reflexivity.
  unfold cellError.
  destruct (ruleApplies email header), (ruleApplies phone header),
    (ruleApplies numeric header), (ruleApplies date header); reflexivity.
Qed.

(** A phone column and a plain column, both holding blanks only. *)
Lemma whitespace_cell_errors_witness :
  let rowData : record :=
    {[ "Mobile" := VString "   "; "Age" := VString " " ]} in
  let headers := ["Mobile"; "Age"] in
  [rowData] !! 0%nat = Some rowData
  /\ headers !! 0%nat = Some "Mobile"
  /\ getProp rowData "Mobile" = VString "   "
  /\ "   " <> ""
  /\ isWhiteSpaceOnly "   " = true
  /\ filter (fun e => cellAddress e
                      = getCellAddress (Z.of_nat 0 + 1) (Z.of_nat 0))
       (validate isoDateOnly [rowData] headers)
     = [mkError "A2" 2 "Mobile" "Phone number must be exactly 10 digits" phone]
  /\ validate isoDateOnly [rowData] headers
     = [mkError "A2" 2 "Mobile" "Phone number must be exactly 10 digits" phone].
Proof.
  intros rowData headers.
  assert (H0 : [rowData] !! 0%nat = Some rowData) by reflexivity.
  assert (H1 : headers !! 0%nat = Some "Mobile") by reflexivity.
  assert (H2 : getProp rowData "Mobile" = VString "   ") by reflexivity.
  assert (H3 : "   " <> "") by discriminate.
  assert (H4 : isWhiteSpaceOnly "   " = true) by reflexivity.
  split; [exact H0|]. split; [exact H1|]. split; [exact H2|].
  split; [exact H3|]. split; [exact H4|]. split.
  - exact (whitespace_cell_errors isoDateOnly [rowData] headers 0 0 rowData
             "Mobile" "   " H0 H1 H2 H3 H4).
  - vm_compute. reflexivity.
Defined.

(** X11. A cell that holds a safe integer (at most 2^53 - 1 in absolute
    value) always passes the numeric rule: [String] prints its decimal
    numeral, with a minus sign if it is negative, and [Number] reads that
    back as a finite number. *)
Theorem number_cell_is_numeric (n : Z) :
  Z.abs n <= maxSafeInteger ->
  validateNumeric (trim (toString (VNumber n))) = true.
Proof.
  intros Hsafe.
  assert (Hn : Z.abs n < overflowBound).
  { eapply Z.le_lt_trans; [exact Hsafe|]. vm_compute. reflexivity. }
  simpl toString. destruct n as [|p|p].
  - vm_compute. reflexivity.
  - destruct (pretty_positive_digits p) as (Hd & Hne & Hx).
    rewrite trim_no_space by by apply digits_no_space.
    unfold validateNumeric. rewrite Number_digits by done.
    by rewrite (unsignedDecimal_digits _ (Z.pos p)) by (done || lia).
  - destruct (pretty_positive_digits p) as (Hd & Hne & Hx).
    change (pretty (Z.neg p)) with ("-" +:+ pretty p).
    change (pretty p) with (pretty (Z.pos p)).
    rewrite append_cons, append_nil_l.
    rewrite trim_no_space by (simpl; by apply digits_no_space).
    unfold validateNumeric. rewrite Number_minus_digits by done.
    by rewrite (unsignedDecimal_digits _ (Z.pos p)) by (done || lia).
Qed.

(** A negative number of six digits. *)
Lemma number_cell_is_numeric_witness :
  Z.abs (-120345) <= maxSafeInteger
  /\ validateNumeric (trim (toString (VNumber (-120345)))) = true.
Proof.
  assert (H : Z.abs (-120345) <= maxSafeInteger) by (vm_compute; discriminate).
  split; [exact H|]. exact (number_cell_is_numeric (-120345) H).
Defined.

(** X12. An accepted upload hands the input rows back, reordered but
    otherwise unchanged: with pairwise different headers, none of them
    [__proto__], the rows of the dataset are the input rows cut to the
    width of the header row, and a row with fewer cells than there are
    headers is never accepted.  (A cell under a header [__proto__] is not
    stored in the row's object; what is read back there is
    [Object.prototype], which is not blank.) *)
Theorem accepted_rows_unchanged (dateIsValid : string -> bool)
    (localeCompare : string -> string -> Z) (headers : list string)
    (dataRows : list (list value)) (ds : SheetData) :
  NoDup headers ->
  "__proto__" ∉ headers ->
  data (processFile dateIsValid localeCompare headers dataRows) = Some ds ->
  Forall (fun row => (List.length headers <= List.length row)%nat) dataRows
  /\ Permutation (rows ds) (map (take (List.length headers)) dataRows).
Proof.
  intros Hnd _ Hds. apply processFile_data in Hds as (Hvalid & -> & _). simpl.
  apply validate_nil_iff in Hvalid as [Hcells _].
  assert (Hlen : Forall (fun row => (List.length headers <= List.length row)%nat)
                   dataRows).
  { apply list.Forall_forall. intros row Hrow.
    destruct (Nat.le_gt_cases (List.length headers) (List.length row)) as [|Hlt];
      [done|].
    apply list_elem_of_lookup in Hrow as [i Hi].
    unfold allCellsValid in Hcells.
    assert (Hobj : map (toObject headers) dataRows !! i
                   = Some (toObject headers row)).
    { by rewrite list_lookup_fmap, Hi. }
    pose proof (forallb_lookup _ _ _ _ Hcells Hobj) as Hv. cbv beta in Hv.
    by rewrite short_row_invalid in Hv. }
  split; [done|].
  rewrite (sort_Permutation (compareRows localeCompare (nameColumn headers))).
  rewrite map_map. apply Permutation_refl'.
  apply Forall_fmap_ext_1. eapply Forall_impl; [exact Hlen|].
  intros row Hrow. simpl. by apply row_cells_NoDup.
Qed.

(** Two rows, the second with a cell beyond the last header. *)
Lemma accepted_rows_unchanged_witness :
  let headers := ["Name"; "Email"] in
  let dataRows :=
    [ [VString "bob"; VString "b@x.org"];
      [VString "Ann"; VString "a@x.org"; VString "extra"] ] in
  NoDup headers
  /\ ("__proto__" ∉ headers)
  /\ exists ds,
       data (processFile isoDateOnly codeUnitCompare headers dataRows) = Some ds
       /\ Permutation (rows ds) (map (take (List.length headers)) dataRows)
       /\ rows ds = [ [VString "Ann"; VString "a@x.org"];
                      [VString "bob"; VString "b@x.org"] ].
Proof.
  intros headers dataRows.
  assert (Hnd : NoDup headers).
  { repeat constructor; set_unfold; intros H;
      repeat (destruct H as [H|H]; try discriminate); done. }
  assert (Hproto : "__proto__" ∉ headers).
  { intros H. repeat (apply elem_of_cons in H as [H|H]; [discriminate|]).
    by apply elem_of_nil in H. }
  split; [exact Hnd|]. split; [exact Hproto|].
  destruct (data (processFile isoDateOnly codeUnitCompare headers dataRows))
    as [ds|] eqn:Hds; [|vm_compute in Hds; discriminate].
  exists ds. split; [reflexivity|]. split.
  - exact (proj2 (accepted_rows_unchanged isoDateOnly codeUnitCompare headers
                    dataRows ds Hnd Hproto Hds)).
  - vm_compute in Hds. injection Hds as <-. reflexivity.
Defined.

(** X13. Uploading the rows of an accepted dataset again gives the same
    dataset: they are accepted, and they are already in sorted order. *)
Theorem reupload_unchanged (dateIsValid : string -> bool)
    (localeCompare : string -> string -> Z) (headers : list string)
    (dataRows : list (list value)) (ds : SheetData) :
  (forall a b, localeCompare a b <= 0 \/ localeCompare b a <= 0) ->
  (forall a b c, localeCompare a b <= 0 -> localeCompare b c <= 0 ->
     localeCompare a c <= 0) ->
  data (processFile dateIsValid localeCompare headers dataRows) = Some ds ->
  processFile dateIsValid localeCompare headers (rows ds) = mkResult (Some ds) [].
Proof.
  intros Htotal Htrans Hds. apply processFile_data in Hds as (Hvalid & -> & _).
  simpl.
  set (cmp := compareRows localeCompare (nameColumn headers)).
  set (objectData := map (toObject headers) dataRows) in *.
  assert (Hperm : Permutation (sort cmp objectData) objectData)
    by apply sort_Permutation.
  assert (Hobj : map (toObject headers)
                   (map (fun rowData => map (getProp rowData) headers)
                      (sort cmp objectData))
                 = sort cmp objectData).
  { rewrite map_map. rewrite <- (map_id (sort cmp objectData)) at 2.
    apply Forall_fmap_ext_1. rewrite Hperm. unfold objectData.
    apply Forall_fmap. apply list.Forall_forall. intros row _. simpl.
    apply toObject_row_cells. }
  unfold processFile. rewrite Hobj.
  rewrite (validate_nil_Permutation dateIsValid objectData (sort cmp objectData))
    by (done || by symmetry).
  simpl. fold cmp. rewrite sort_of_sorted; [done|].
  apply sort_sorted; unfold cmp, compareRows; eauto.
Qed.

(** Two rows that come back in the other order, uploaded again. *)
Lemma reupload_unchanged_witness :
  let headers := ["Name"; "ID"] in
  let dataRows := [ [VString "bob"; VNumber 1]; [VString "Ann"; VNumber 2] ] in
  exists ds,
    data (processFile isoDateOnly codeUnitCompare headers dataRows) = Some ds
    /\ rows ds = [ [VString "Ann"; VNumber 2]; [VString "bob"; VNumber 1] ]
    /\ processFile isoDateOnly codeUnitCompare headers (rows ds)
       = mkResult (Some ds) [].
Proof.
  intros headers dataRows.
  destruct (data (processFile isoDateOnly codeUnitCompare headers dataRows))
    as [ds|] eqn:Hds; [|vm_compute in Hds; discriminate].
  exists ds. split; [reflexivity|]. split.
  - vm_compute in Hds. injection Hds as <-. reflexivity.
  - exact (reupload_unchanged isoDateOnly codeUnitCompare headers dataRows ds
             codeUnitCompare_total codeUnitCompare_trans Hds).
Defined.

(** X14. The order of an accepted dataset is determined by two properties:
    any arrangement of the records that is sorted by the sort key and keeps
    tied records in their input order is the one [processFile] returns. *)
Theorem dataset_order_determined (dateIsValid : string -> bool)
    (localeCompare : string -> string -> Z) (headers : list string)
    (dataRows : list (list value)) (ds : SheetData) (arranged : list record) :
  (forall a b, localeCompare a b <= 0 \/ localeCompare b a <= 0) ->
  (forall a b c, localeCompare a b <= 0 -> localeCompare b c <= 0 ->
     localeCompare a c <= 0) ->
  data (processFile dateIsValid localeCompare headers dataRows) = Some ds ->
  let col := nameColumn headers in
  StronglySorted
    (fun a b => localeCompare (sortKey col a) (sortKey col b) <= 0) arranged ->
  (forall r : record,
     filter (fun a => localeCompare (sortKey col a) (sortKey col r) <= 0
                      /\ localeCompare (sortKey col r) (sortKey col a) <= 0)
       arranged
     = filter (fun a => localeCompare (sortKey col a) (sortKey col r) <= 0
                        /\ localeCompare (sortKey col r) (sortKey col a) <= 0)
         (map (toObject headers) dataRows)) ->
  arranged = originalData ds.
Proof.
  intros Htotal Htrans Hds col Hsorted Hstable.
  apply processFile_data in Hds as (_ & -> & _). simpl.
  apply (sort_unique (compareRows localeCompare col));
    unfold compareRows; eauto.
Qed.

(** Two rows that are in sorted order already. *)
Lemma dataset_order_determined_witness :
  let headers := ["Name"] in
  let dataRows := [ [VString "Ann"]; [VString "bob"] ] in
  let arranged : list record :=
    [ {[ "Name" := VString "Ann" ]}; {[ "Name" := VString "bob" ]} ] in
  exists ds,
    data (processFile isoDateOnly codeUnitCompare headers dataRows) = Some ds
    /\ arranged = originalData ds.
Proof.
  intros headers dataRows arranged.
  destruct (data (processFile isoDateOnly codeUnitCompare headers dataRows))
    as [ds|] eqn:Hds; [|vm_compute in Hds; discriminate].
  exists ds. split; [reflexivity|].
  apply (dataset_order_determined isoDateOnly codeUnitCompare headers dataRows
           ds arranged codeUnitCompare_total codeUnitCompare_trans Hds).
  - repeat constructor. vm_compute. discriminate.
  - intros r. reflexivity.
Defined.

(** X15. [searchMultiple] returns the results of the queries, query after
    query, without the items whose JSON text an earlier item has: of the
    items with one JSON text the first found is kept, at its place. *)
Theorem searchMultiple_first_of_each {Item : Type}
    (fuseSearch : string -> list (@FuzzySearch.FuseResult Item))
    (stringify : Item -> string) (queries : list string) :
  FuzzySearch.searchMultiple fuseSearch stringify queries
  = keepFirst stringify
      (List.concat (map (FuzzySearch.search fuseSearch) queries)).
Proof. apply searchMultiple_keepFirst. Qed.

(** X16. The merged result holds no two items with the same JSON text;
    every item of it is a result of one of the queries; and every result
    of every query is in it, or an item with the same JSON text is. *)
Theorem searchMultiple_union {Item : Type}
    (fuseSearch : string -> list (@FuzzySearch.FuseResult Item))
    (stringify : Item -> string) (queries : list string) :
  let merged := FuzzySearch.searchMultiple fuseSearch stringify queries in
  NoDup (map stringify merged)
  /\ Forall (fun y => exists q, q ∈ queries
                                /\ y ∈ FuzzySearch.search fuseSearch q) merged
  /\ Forall (fun q =>
               Forall (fun x => exists y, y ∈ merged
                                          /\ stringify y = stringify x)
                 (FuzzySearch.search fuseSearch q))
       queries.
Proof.
  intros merged. unfold merged. rewrite searchMultiple_keepFirst.
  split; [apply keepFirst_NoDup|]. split.
  - apply list.Forall_forall. intros y Hy%keepFirst_elem.
    apply list_elem_of_In, in_concat in Hy as (l & Hl & Hy).
    apply in_map_iff in Hl as (q & <- & Hq).
    exists q. split; by apply list_elem_of_In.
  - apply list.Forall_forall. intros q Hq. apply list.Forall_forall.
    intros x Hx. apply keepFirst_represents.
    apply list_elem_of_In, in_concat.
    exists (FuzzySearch.search fuseSearch q).
    split; [apply in_map|]; by apply list_elem_of_In.
Qed.

(** X17. Queries that are empty or hold white space only add nothing to
    the merged result: leaving them out gives the same result. *)
Theorem searchMultiple_ignores_blank {Item : Type}
    (fuseSearch : string -> list (@FuzzySearch.FuseResult Item))
    (stringify : Item -> string) (queries : list string) :
  FuzzySearch.searchMultiple fuseSearch stringify
    (List.filter (fun q => negb (isWhiteSpaceOnly q)) queries)
  = FuzzySearch.searchMultiple fuseSearch stringify queries.
Proof.
  rewrite !searchMultiple_keepFirst. f_equal.
  induction queries as [|q queries IH]; simpl; [done|].
  destruct (isWhiteSpaceOnly q) eqn:Eq; simpl.
  - unfold FuzzySearch.search at 2. apply trim_empty_iff in Eq. by rewrite Eq.
  - by rewrite IH.
Qed.

(** X18. The list the page shows for a loaded dataset: every row, in the
    stored order, when the query is empty or white space only, and the rows
    the index returns for the query otherwise.  Without a dataset it is
    empty. *)
Theorem filteredData_shown
    (fuse : list record -> list string -> string
            -> list (@FuzzySearch.FuseResult record))
    (searchQuery : string) :
  IndexPage.filteredData fuse None searchQuery = []
  /\ forall d : SheetData,
       IndexPage.filteredData fuse (Some d) searchQuery
       = if isWhiteSpaceOnly searchQuery then originalData d
         else map FuzzySearch.item (fuse (originalData d) (headers d) searchQuery).
Proof.
  split; [done|]. intros d. unfold IndexPage.filteredData, FuzzySearch.search.
  destruct (isWhiteSpaceOnly searchQuery) eqn:Eq.
  - apply trim_empty_iff in Eq. by rewrite Eq.
  - destruct (isEmpty (trim searchQuery)) eqn:Et; [|done].
    apply isEmpty_true, trim_empty_iff in Et. congruence.
Qed.

(** X19. Unless a header contains "date", the result of processing does
    not depend on the date parser of the platform. *)
Theorem result_independent_of_date_parser
    (dateIsValid1 dateIsValid2 : string -> bool)
    (localeCompare : string -> string -> Z) (headers : list string)
    (dataRows : list (list value)) :
  (forall h, h ∈ headers -> ruleApplies date h = false) ->
  processFile dateIsValid1 localeCompare headers dataRows
  = processFile dateIsValid2 localeCompare headers dataRows.
Proof.
  intros Hno.
  assert (Hv : forall objectData,
             validate dateIsValid1 objectData headers
             = validate dateIsValid2 objectData headers).
  { intros objectData. rewrite !validate_eq. f_equal. f_equal.
    apply imap_ext. intros i rowData _. simpl. rewrite !validateRow_eq. f_equal.
    apply imap_ext. intros c h Hc. simpl. unfold cellErrors.
    destruct (isBlank _); [done|].
    cbv beta iota zeta delta [cellRules map List.concat ruleErrors].
    rewrite (Hno h) by by eapply list_elem_of_lookup_2. reflexivity. }
  unfold processFile. by rewrite Hv.
Qed.

(** A sheet without a date column, under a parser that accepts nothing but
    ISO dates and under one that accepts every string. *)
Lemma result_independent_of_date_parser_witness :
  let headers := ["Name"; "Email"] in
  (forall h, h ∈ headers -> ruleApplies date h = false)
  /\ processFile isoDateOnly codeUnitCompare headers
       [[VString "Ann"; VString "bad"]]
     = processFile (fun _ => true) codeUnitCompare headers
         [[VString "Ann"; VString "bad"]].
Proof.
  intros headers.
  assert (H : forall h, h ∈ headers -> ruleApplies date h = false).
  { intros h Hh. unfold headers in Hh.
    apply elem_of_cons in Hh as [->|Hh]; [reflexivity|].
    apply elem_of_cons in Hh as [->|Hh]; [reflexivity|].
    by apply elem_of_nil in Hh. }
  split; [exact H|].
  exact (result_independent_of_date_parser isoDateOnly (fun _ => true)
           codeUnitCompare headers [[VString "Ann"; VString "bad"]] H).
Defined.

(** X20. All errors at the address of one cell, in the order they are
    returned: if the raw value is blank, the [blank] error alone; if not,
    one error for each rule the column name selects and the trimmed value
    fails, in the order email, phone, numeric, date; and then, when the
    column is an identity column and the non-empty key of the row was seen
    in an earlier row, one [unique] error naming the first such row. *)
Theorem errors_at_cell (dateIsValid : string -> bool)
    (objectData : list record) (headers : list string) (rowIndex colIndex : nat)
    (rowData : record) (header : string) :
  objectData !! rowIndex = Some rowData ->
  headers !! colIndex = Some header ->
  filter (fun e => cellAddress e
                   = getCellAddress (Z.of_nat rowIndex + 1) (Z.of_nat colIndex))
    (validate dateIsValid objectData headers)
  = (if isBlank (getProp rowData header)
     then [cellError rowIndex colIndex header blank]
     else List.concat
            (map (ruleErrors dateIsValid rowIndex colIndex header
                    (trim (toString (getProp rowData header))))
               [email; phone; numeric; date]))
    ++ (if ruleApplies unique header
           && negb (isEmpty (uniqueKey header rowData))
        then match firstIndex (uniqueKey header rowData)
                     (take rowIndex (map (uniqueKey header) objectData)) with
             | Some o => [uniqueError header colIndex rowIndex o]
             | None => []
             end
        else []).
Proof.
  intros Hi Hc. rewrite (validate_at_cell _ _ _ _ _ rowData header) by done.
  f_equal. unfold duplicateAt.
  destruct (ruleApplies unique header); [|done]. simpl.
  by destruct (isEmpty (uniqueKey header rowData)).
Qed.

(** The second of two rows with the same ID and a bad email. *)
Lemma errors_at_cell_witness :
  let headers := ["Email ID"] in
  let row : record := {[ "Email ID" := VString "x" ]} in
  [row; row] !! 1%nat = Some row
  /\ headers !! 0%nat = Some "Email ID"
  /\ filter (fun e => cellAddress e
                      = getCellAddress (Z.of_nat 1 + 1) (Z.of_nat 0))
       (validate isoDateOnly [row; row] headers)
     = [ mkError "A3" 3 "Email ID" "Invalid email format" email;
         mkError "A3" 3 "Email ID" "Duplicate value found (also in row 2)"
           unique ].
Proof.
  intros headers row.
  assert (H0 : [row; row] !! 1%nat = Some row) by reflexivity.
  assert (H1 : headers !! 0%nat = Some "Email ID") by reflexivity.
  split; [exact H0|]. split; [exact H1|].
  rewrite (errors_at_cell isoDateOnly [row; row] headers 1 0 row "Email ID" H0 H1).
  vm_compute. reflexivity.
Defined.
